(** * fossilpy: a shallow embedding of [fossil.py]

    The development follows the layout of the Python module: the helper
    lambdas, the base-64 integer codec, the delta checksum, the delta
    decoder, the clear-sign stripper, the LRU cache, the card parser of
    structural artifacts and the repository lookup.

    Conventions.
    - A Python [int] is a [Z]; [v & m], [v >> k] and [v << k] are
      [Z.land], [Z.shiftr] and [Z.shiftl].
    - A [bytes] object (or a [memoryview] of one) is a [list byte]; the
      integer read by indexing or iterating is [byte_val].
    - A Python [str] is a [string].
    - A Python function that can raise returns a [result]; the exceptions
      that the module raises itself, and the ones the interpreter raises on
      its behalf, are the constructors of [exn]. *)

From Stdlib Require Import ZArith List String Ascii Bool Lia.
From Stdlib.Strings Require Import Byte.
Import ListNotations.

Local Open Scope Z_scope.

(** ** Exceptions and the error monad *)

Inductive value_error : Type :=
| InvalidDeltaEncoding                 (* 'invalid delta encoding' *)
| SizeMismatch (declared produced : Z) (* 'delta decoding failed, size mismatch: %d, %d' *)
| DataMismatch                         (* 'delta decoding failed, data mismatch' *)
| UnrecognizedCard (line : string)     (* 'unrecognized card: ' + line *)
| CantFindArtifact (rid : Z)           (* "can't find artifact: %s" % rid *)
| LibraryValueError (what : string).   (* raised inside a library call *)

Inductive exn : Type :=
| ValueError (e : value_error)
| UnboundLocalError (name : string)
| IndexError
| KeyError
| LibraryError (what : string).

Inductive result (A : Type) : Type :=
| Ok (a : A)
| Raise (e : exn).
Arguments Ok {A} a.
Arguments Raise {A} e.

Definition bind {A B} (m : result A) (k : A -> result B) : result B :=
  match m with
  | Ok a => k a
  | Raise e => Raise e
  end.

Notation "x <- m ;; k" := (bind m (fun x => k))
  (at level 61, m at next level, right associativity).
Notation "' p <- m ;; k" := (bind m (fun x => let p := x in k))
  (at level 61, p pattern, m at next level, right associativity).

Definition is_ok {A} (m : result A) : bool :=
  match m with Ok _ => true | Raise _ => false end.

(** ** Python sequences *)

Module Py.

Definition bytes := list byte.

Definition byte_val (b : byte) : Z := Z.of_N (Byte.to_N b).

Definition len {A} (l : list A) : Z := Z.of_nat (List.length l).

(** [b"..."] *)
Definition b (s : string) : bytes := list_byte_of_string s.

(** Normalisation of one bound of a slice: a negative bound counts from the
    end, and the outcome is clamped to [0 .. len]. *)
Definition clamp (n i : Z) : Z :=
  let i := if i <? 0 then i + n else i in
  if i <? 0 then 0 else if n <? i then n else i.

(** [l[lo:hi]] *)
Definition slice {A} (l : list A) (lo hi : Z) : list A :=
  let n := len l in
  let lo := clamp n lo in
  let hi := clamp n hi in
  firstn (Z.to_nat (hi - lo)) (skipn (Z.to_nat lo) l).

(** [l[lo:]] *)
Definition slice_from {A} (l : list A) (lo : Z) : list A :=
  skipn (Z.to_nat (clamp (len l) lo)) l.

(** [l[i]] for a bytes-like object *)
Definition index (l : bytes) (i : Z) : result Z :=
  let n := len l in
  let j := if i <? 0 then i + n else i in
  if (j <? 0) || (n <=? j) then Raise IndexError
  else match nth_error l (Z.to_nat j) with
       | Some x => Ok (byte_val x)
       | None => Raise IndexError
       end.

Fixpoint bytes_eqb (x y : bytes) : bool :=
  match x, y with
  | [], [] => true
  | c :: x', d :: y' => Byte.eqb c d && bytes_eqb x' y'
  | _, _ => false
  end.

(** [l.startswith(p)] *)
Fixpoint startswith (p l : bytes) : bool :=
  match p, l with
  | [], _ => true
  | c :: p', d :: l' => Byte.eqb c d && startswith p' l'
  | _ :: _, [] => false
  end.

End Py.
Import Py.

(** ** The base-64 integer codec *)

Definition zdigits : string :=
  "0123456789ABCDEFGHIJKLMNOPQRSTUVWXYZ_abcdefghijklmnopqrstuvwxyz~".

(** [zdigits[i]]; the mask [0x3f] keeps every index the encoder uses inside
    the 64 symbols ([zdigits_in_range]). *)
Definition zdigit (i : Z) : ascii :=
  match String.get (Z.to_nat i) zdigits with
  | Some c => c
  | None => "0"%char
  end.

(** The [while v > 0] loop of [base64_putint]: [fuel] bounds the number of
    iterations. *)
Fixpoint putint_while (fuel : nat) (v : Z) (ret : string) : string :=
  match fuel with
  | O => ret
  | S fuel' =>
      if 0 <? v
      then putint_while fuel' (Z.shiftr v 6)
             (ret ++ String (zdigit (Z.land v 0x3f)) EmptyString)%string
      else ret
  end.

(** One iteration removes six bits, so [v] has no more iterations than
    bits. *)
Definition putint_fuel (v : Z) : nat := S (Z.to_nat (Z.log2 v)).

Definition base64_putint (v : Z) : string :=
  if v =? 0 then "0"%string
  else putint_while (putint_fuel v) v "".

Definition zvalue : list Z :=
  [ -1; -1; -1; -1; -1; -1; -1; -1;   -1; -1; -1; -1; -1; -1; -1; -1;
    -1; -1; -1; -1; -1; -1; -1; -1;   -1; -1; -1; -1; -1; -1; -1; -1;
    -1; -1; -1; -1; -1; -1; -1; -1;   -1; -1; -1; -1; -1; -1; -1; -1;
     0;  1;  2;  3;  4;  5;  6;  7;    8;  9; -1; -1; -1; -1; -1; -1;
    -1; 10; 11; 12; 13; 14; 15; 16;   17; 18; 19; 20; 21; 22; 23; 24;
    25; 26; 27; 28; 29; 30; 31; 32;   33; 34; 35; -1; -1; -1; -1; 36;
    -1; 37; 38; 39; 40; 41; 42; 43;   44; 45; 46; 47; 48; 49; 50; 51;
    52; 53; 54; 55; 56; 57; 58; 59;   60; 61; 62; -1; -1; -1; 63; -1 ].

(** [base64_getint.zvalue[0x7f & ch]] *)
Definition zvalue_of (ch : Z) : Z :=
  nth (Z.to_nat (Z.land 0x7f ch)) zvalue (-1).

(** How a [for ... else] loop was left. *)
Inductive for_exit : Type := Broke | Exhausted.

(** The [for z, ch in enumerate(buf[pos:])] loop.  [i] is the counter of
    [enumerate]; [z] is the loop variable, unbound ([None]) until the
    first iteration assigns it. *)
Fixpoint getint_for (items : bytes) (i : Z) (z : option Z) (v : Z)
  : for_exit * option Z * Z :=
  match items with
  | [] => (Exhausted, z, v)
  | ch :: items' =>
      let z := Some i in
      let c := zvalue_of (byte_val ch) in
      if c <? 0 then (Broke, z, v)
      else getint_for items' (i + 1) z (Z.shiftl v 6 + c)
  end.

Definition base64_getint (buf : bytes) (pos : Z) : result (Z * Z) :=
  match getint_for (slice_from buf pos) 0 None 0 with
  | (Broke, Some z, v) => Ok (v, pos + z)
  | (Exhausted, Some z, v) => Ok (v, pos + (z + 1))
  | (_, None, _) => Raise (UnboundLocalError "z")
  end.


(** ** The delta checksum *)

Definition uint32 : Z := 4294967296.

(** [struct.unpack('>I', w)[0]]: exactly four bytes, most significant
    first; any other length is a [struct.error]. *)
Definition unpack_be32 (w : bytes) : result Z :=
  match w with
  | [b0; b1; b2; b3] =>
      Ok (((byte_val b0 * 256 + byte_val b1) * 256 + byte_val b2) * 256
          + byte_val b3)
  | _ => Raise (LibraryError "struct.error")
  end.

(** [b'\0' * n] *)
Definition zeros (n : Z) : bytes := repeat x00 (Z.to_nat n).

(** [numpy.frombuffer(buf, dtype='>u4')]: the buffer cut into big-endian
    words; a length that is not a multiple of four is a [ValueError]. *)
Fixpoint frombuffer (buf : bytes) : result (list Z) :=
  match buf with
  | [] => Ok []
  | b0 :: b1 :: b2 :: b3 :: rest =>
      w <- unpack_be32 [b0; b1; b2; b3] ;;
      ws <- frombuffer rest ;;
      Ok (w :: ws)
  | _ => Raise (ValueError (LibraryValueError "buffer size must be a multiple of element size"))
  end.

(** [array.sum(dtype=dt)] with a 32-bit unsigned accumulator. *)
Definition array_sum (ws : list Z) : Z :=
  fold_left (fun acc w => (acc + w) mod uint32) ws 0.

(** The definition chosen when numpy is available. *)
Definition delta_checksum_numpy (blob : bytes) : result Z :=
  let m := len blob mod 4 in
  array <- frombuffer (blob ++ zeros (4 - m)) ;;
  Ok (array_sum array).

(** The [for i in range(ints)] loop of the native definition. *)
Fixpoint checksum_for (blob : bytes) (range : list nat) (checksum : Z)
  : result Z :=
  match range with
  | [] => Ok checksum
  | i :: range' =>
      let i := Z.of_nat i in
      w <- unpack_be32 (slice blob (i * 4) (i * 4 + 4)) ;;
      checksum_for blob range' ((checksum + w) mod uint32)
  end.

(** The definition chosen when numpy is missing. *)
Definition delta_checksum_native (blob : bytes) : result Z :=
  let checksum := 0 in
  let ints := len blob / 4 in
  let m := len blob mod 4 in
  checksum <- checksum_for blob (seq 0 (Z.to_nat ints)) checksum ;;
  let rem := slice_from blob (ints * 4) ++ zeros (4 - m) in
  w <- unpack_be32 rem ;;
  Ok ((checksum + w) mod uint32).

Definition delta_checksum (NUMPY_AVAILABLE : bool) (blob : bytes) : result Z :=
  if NUMPY_AVAILABLE then delta_checksum_numpy blob
  else delta_checksum_native blob.

(** ** The delta decoder *)

Section Delta.

Variable NUMPY_AVAILABLE : bool.

(** What one turn of the [while] loop of [delta_apply] leaves behind:
    either the loop goes on from a new position with a longer output, or
    the [';'] instruction breaks out of it with the declared checksum. *)
Inductive delta_turn : Type :=
| Continue (pos : Z) (newblob : bytes)
| Break (checksum : Z).

(** The body of the [while] loop. *)
Definition delta_body (blob delta : bytes) (pos : Z) (newblob : bytes)
  : result delta_turn :=
  '(num, pos) <- base64_getint delta pos ;;
  op <- index delta pos ;;
  if op =? 64 then                                     (* @ *)
    let pos := pos + 1 in
    '(offset, pos) <- base64_getint delta pos ;;
    let pos := pos + 1 in                              (* , *)
    Ok (Continue pos (newblob ++ slice blob offset (offset + num)))
  else if op =? 58 then                                (* : *)
    let pos := pos + 1 in
    Ok (Continue (pos + num) (newblob ++ slice delta pos (pos + num)))
  else if op =? 59 then                                (* ; *)
    Ok (Break num)
  else Raise (ValueError InvalidDeltaEncoding).

(** The [while pos < len(delta)] loop with its [else] clause; [None] when
    [fuel] turns were not enough ([delta_while_enough] shows that
    [len delta - pos + 1] turns always are). *)
Fixpoint delta_while (fuel : nat) (blob delta : bytes) (pos : Z)
  (newblob : bytes) : option (result (Z * bytes)) :=
  match fuel with
  | O => None
  | S fuel' =>
      if pos <? len delta then
        match delta_body blob delta pos newblob with
        | Raise e => Some (Raise e)
        | Ok (Break checksum) => Some (Ok (checksum, newblob))
        | Ok (Continue pos' newblob') =>
            delta_while fuel' blob delta pos' newblob'
        end
      else Some (Raise (ValueError InvalidDeltaEncoding))
  end.

(** The checks after the loop. *)
Definition delta_finish (check : bool) (targetsize checksum : Z)
  (buf : bytes) : result bytes :=
  if negb (targetsize =? len buf) then
    Raise (ValueError (SizeMismatch targetsize (len buf)))
  else if check then
    sum <- delta_checksum NUMPY_AVAILABLE buf ;;
    if negb (checksum =? sum) then Raise (ValueError DataMismatch)
    else Ok buf
  else Ok buf.

Definition delta_apply_fuel (fuel : nat) (blob delta : bytes) (check : bool)
  : option (result bytes) :=
  match base64_getint delta 0 with
  | Raise e => Some (Raise e)
  | Ok (targetsize, pos) =>
      let pos := pos + 1 in                            (* \n *)
      match delta_while fuel blob delta pos [] with
      | None => None
      | Some (Raise e) => Some (Raise e)
      | Some (Ok (checksum, buf)) =>
          Some (delta_finish check targetsize checksum buf)
      end
  end.

(** [delta_apply(blob, delta, check)].  The position grows in every turn
    of the loop, so [len(delta) + 1] turns are never used up
    ([delta_apply_fuel_enough]); the last branch is there for the type
    only. *)
Definition delta_apply (blob delta : bytes) (check : bool) : result bytes :=
  match delta_apply_fuel (S (List.length delta)) blob delta check with
  | Some r => r
  | None => Raise (LibraryError "unreachable")
  end.

End Delta.

(** ** The clear-sign stripper *)

Definition clearsign_header : bytes := b "-----BEGIN PGP SIGNED MESSAGE-----".
Definition pgpsign_header : bytes := b "-----BEGIN PGP SIGNATURE-----".

Module PyBytes.

(** The bytes that [bytes.rstrip()] strips: space, tab, newline, carriage
    return, vertical tab, form feed. *)
Definition isspace (c : byte) : bool :=
  match c with
  | x20 | x09 | x0a | x0d | x0b | x0c => true
  | _ => false
  end.

(** [l.rstrip()] *)
Definition rstrip (l : bytes) : bytes :=
  fold_right (fun c acc =>
                match acc with
                | [] => if isspace c then [] else [c]
                | _ :: _ => c :: acc
                end) [] l.

(** [l.splitlines(True)]: a line ends after a line feed, after a carriage
    return, or after a carriage return and line feed together, and keeps
    its end; [cur] is the line read so far. *)
Fixpoint splitlines_from (cur l : bytes) : list bytes :=
  match l with
  | [] => match cur with [] => [] | _ :: _ => [cur] end
  | c :: l' =>
      match c with
      | x0a => (cur ++ [x0a]) :: splitlines_from [] l'
      | x0d =>
          match l' with
          | x0a :: l'' => (cur ++ [x0d; x0a]) :: splitlines_from [] l''
          | _ => (cur ++ [x0d]) :: splitlines_from [] l'
          end
      | _ => splitlines_from (cur ++ [c]) l'
      end
  end.

Definition splitlines (l : bytes) : list bytes := splitlines_from [] l.

(** [b''.join(lines)] *)
Definition join (lines : list bytes) : bytes := List.concat lines.

End PyBytes.

(** The [for k, ln in enumerate(blob.splitlines(True))] loop: [content] is
    the flag of the same name and [lines] the list the loop appends to. *)
Fixpoint clearsign_for (lns : list bytes) (content : bool)
  (lines : list bytes) : list bytes :=
  match lns with
  | [] => lines
  | ln :: lns' =>
      match PyBytes.rstrip ln with
      | [] => clearsign_for lns' true lines
      | _ :: _ =>
          if content then
            if bytes_eqb (PyBytes.rstrip ln) pgpsign_header then lines
            else if startswith (b "- ") ln
                 then clearsign_for lns' content (lines ++ [slice_from ln 2])
                 else clearsign_for lns' content (lines ++ [ln])
          else clearsign_for lns' content lines
      end
  end.

Definition remove_clearsign (blob : bytes) : bytes :=
  if negb (startswith clearsign_header blob) then blob
  else PyBytes.join (clearsign_for (PyBytes.splitlines blob) false []).

(** ** The LRU cache *)

(** [collections.OrderedDict] with integer keys: the items in insertion
    order, oldest first, no key twice. *)
Module OrderedDict.

Definition t (V : Type) := list (Z * V).

Definition contains {V} (key : Z) (d : t V) : bool :=
  existsb (fun kv => fst kv =? key) d.

(** [d.pop(key)]: the value and the dictionary without the item;
    [KeyError] when the key is missing. *)
Fixpoint pop {V} (key : Z) (d : t V) : result (V * t V) :=
  match d with
  | [] => Raise KeyError
  | (k, v) :: d' =>
      if k =? key then Ok (v, d')
      else '(v', d'') <- pop key d' ;; Ok (v', (k, v) :: d'')
  end.

(** [d[key] = value] for a key that is not in [d]. *)
Definition append {V} (key : Z) (value : V) (d : t V) : t V :=
  d ++ [(key, value)].

(** [d.popitem(last=False)] *)
Definition popitem_first {V} (d : t V) : result ((Z * V) * t V) :=
  match d with
  | [] => Raise KeyError
  | kv :: d' => Ok (kv, d')
  end.

End OrderedDict.

Record LRUCache : Type := mkLRUCache {
  capacity : Z;
  data : OrderedDict.t bytes
}.

Definition LRUCache_init (maxlen : Z) : LRUCache :=
  {| capacity := maxlen; data := [] |}.

(** [key in cache] ([UserDict.__contains__] looks into [data]). *)
Definition LRUCache_contains (key : Z) (c : LRUCache) : bool :=
  OrderedDict.contains key (data c).

(** [cache[key]] *)
Definition LRUCache_getitem (key : Z) (c : LRUCache)
  : result (bytes * LRUCache) :=
  '(value, d) <- OrderedDict.pop key (data c) ;;
  Ok (value, {| capacity := capacity c;
                data := OrderedDict.append key value d |}).

(** [cache[key] = value] *)
Definition LRUCache_setitem (key : Z) (value : bytes) (c : LRUCache)
  : result LRUCache :=
  if negb (capacity c =? 0) then
    match OrderedDict.pop key (data c) with
    | Ok (_, d) =>
        Ok {| capacity := capacity c;
              data := OrderedDict.append key value d |}
    | Raise _ =>
        d <- (if capacity c <=? len (data c)
              then '(_, d) <- OrderedDict.popitem_first (data c) ;; Ok d
              else Ok (data c)) ;;
        Ok {| capacity := capacity c;
              data := OrderedDict.append key value d |}
    end
  else Ok c.

(** ** Python strings *)

Module PyStr.

Local Open Scope string_scope.

(** The characters below 256 for which [str.isspace] holds. *)
Definition isspace (c : ascii) : bool :=
  let n := Z.of_nat (nat_of_ascii c) in
  (((9 <=? n) && (n <=? 13)) || ((28 <=? n) && (n <=? 32))
   || (n =? 133) || (n =? 160))%Z.

(** [s.rstrip()] *)
Fixpoint rstrip (s : string) : string :=
  match s with
  | "" => ""
  | String c s' =>
      match rstrip s' with
      | "" => if isspace c then "" else String c ""
      | r => String c r
      end
  end.

(** [s.split(sep)] for a separator of one character; [cur] is the token
    read so far. *)
Fixpoint split_from (sep : ascii) (cur s : string) : list string :=
  match s with
  | "" => [cur]
  | String c s' =>
      if Ascii.eqb c sep then cur :: split_from sep "" s'
      else split_from sep (cur ++ String c "") s'
  end.

Definition split (sep : ascii) (s : string) : list string :=
  split_from sep "" s.

(** [x in s] for strings: [x] occurs in [s] as a substring. *)
Fixpoint contains (x s : string) : bool :=
  prefix x s ||
  match s with
  | "" => false
  | String _ s' => contains x s'
  end.

(** [s.replace(old, new)] for a non-empty [old]: the occurrences are found
    from left to right and do not overlap.  [skip] counts the characters of
    the occurrence just replaced that are still to be passed over. *)
Fixpoint replace_from (old new s : string) (skip : nat) : string :=
  match s with
  | "" => ""
  | String c s' =>
      match skip with
      | S k => replace_from old new s' k
      | O =>
          if prefix old s
          then new ++ replace_from old new s' (String.length old - 1)
          else String c (replace_from old new s' 0)
      end
  end.

(** [s.replace("", new)]: [new] before every character and at the end. *)
Fixpoint intersperse (new s : string) : string :=
  match s with
  | "" => new
  | String c s' => new ++ String c (intersperse new s')
  end.

Definition replace (old new s : string) : string :=
  match old with
  | "" => intersperse new s
  | String _ _ => replace_from old new s 0
  end.

(** [s[:n]] for a non-negative [n] *)
Definition take (n : nat) (s : string) : string := substring 0 n s.

End PyStr.

(** ** The helper lambdas *)

Definition bs : string := "\".
Definition nl : string := String (ascii_of_nat 10) "".

Definition text_escape (s : string) : string :=
  PyStr.replace nl (bs ++ "n")
    (PyStr.replace " " (bs ++ "s")
       (PyStr.replace bs (bs ++ bs) s)).

Definition text_unescape (s : string) : string :=
  PyStr.replace (bs ++ bs) bs
    (PyStr.replace (bs ++ "n") nl
       (PyStr.replace (bs ++ "s") " " s)).

(** The reading of the escapes in the words of the specification: one pass
    from left to right in which a backslash introduces one of the three
    sequences; a backslash before any other character, or at the end,
    stands for itself.  [skip] is set when the character under the cursor
    is the second one of a sequence already emitted. *)
Fixpoint unescape_pass (s : string) (skip : bool) : string :=
  match s with
  | EmptyString => EmptyString
  | String c s' =>
      if skip then unescape_pass s' false
      else if Ascii.eqb c "\" then
        match s' with
        | String "\" _ => String "\" (unescape_pass s' true)
        | String "s" _ => String " " (unescape_pass s' true)
        | String "n" _ => String (ascii_of_nat 10) (unescape_pass s' true)
        | _ => String c (unescape_pass s' false)
        end
      else String c (unescape_pass s' false)
  end.

Definition text_unescape_single_pass (s : string) : string :=
  unescape_pass s false.

(** ** Structural artifacts *)

(** The values a card can hold: a string, a number of seconds, or a tuple
    whose items are strings (and, for an [E] card, a leading number). *)
Inductive item : Type :=
| IStr (s : string)
| IInt (n : Z).

Inductive card_value : Type :=
| VStr (s : string)
| VInt (n : Z)
| VTuple (items : list item).

(** An entry of the [cards] dictionary: one value, or, for the card types
    of [CARDMULTI], the list of the values met so far. *)
Inductive card_entry : Type :=
| Single (val : card_value)
| Multi (vals : list card_value).

(** The [cards] dictionary, in insertion order. *)
Definition cards_t := list (string * card_entry).

Definition CARDTYPES : list (string * string) :=
  [ ("A", "attachment"); ("B", "baseline"); ("C", "comment");
    ("D", "datetime"); ("E", "technote"); ("F", "file");
    ("G", "thread_root"); ("H", "thread_title"); ("I", "in_reply_to");
    ("J", "ticket_change"); ("K", "ticket_id"); ("L", "wiki_title");
    ("M", "manifest"); ("N", "mimetype"); ("P", "parent_artifact");
    ("Q", "cherry_pick"); ("R", "repository_checksum"); ("T", "tag");
    ("U", "user_login"); ("W", "wiki_text"); ("Z", "checksum") ]%string.

(** [frozenset('FJMQT')] *)
Definition CARDMULTI : list string := [ "F"; "J"; "M"; "Q"; "T" ]%string.

Definition in_set (x : string) (s : list string) : bool :=
  existsb (String.eqb x) s.

Definition cards_contains (cmd : string) (cards : cards_t) : bool :=
  existsb (fun kv => String.eqb (fst kv) cmd) cards.

Fixpoint cards_get (cmd : string) (cards : cards_t) : result card_entry :=
  match cards with
  | [] => Raise KeyError
  | (k, e) :: cards' =>
      if String.eqb k cmd then Ok e else cards_get cmd cards'
  end.

(** [cards[cmd] = e] *)
Fixpoint cards_set (cmd : string) (e : card_entry) (cards : cards_t)
  : cards_t :=
  match cards with
  | [] => [(cmd, e)]
  | (k, e') :: cards' =>
      if String.eqb k cmd then (k, e) :: cards'
      else (k, e') :: cards_set cmd e cards'
  end.

(** [cards[cmd].append(val)] *)
Definition cards_append (cmd : string) (val : card_value) (cards : cards_t)
  : result cards_t :=
  e <- cards_get cmd cards ;;
  match e with
  | Multi vals => Ok (cards_set cmd (Multi (vals ++ [val])) cards)
  | Single _ => Raise (LibraryError "AttributeError")
  end.

(** [io.BytesIO]: the bytes that are still to be read. *)
Module BytesIO.

Fixpoint readline (f : bytes) : bytes * bytes :=
  match f with
  | [] => ([], [])
  | c :: f' =>
      if Byte.eqb c x0a then ([c], f')
      else let '(line, rest) := readline f' in (c :: line, rest)
  end.

(** [f.read(n)]: a negative [n] reads to the end. *)
Definition read (n : Z) (f : bytes) : bytes * bytes :=
  if n <? 0 then (f, [])
  else (firstn (Z.to_nat n) f, skipn (Z.to_nat n) f).

End BytesIO.

(** [toks[0]] *)
Definition first_tok (toks : list string) : result string :=
  match toks with
  | [] => Raise IndexError
  | t :: _ => Ok t
  end.

Section Parser.

(** Library calls of the parser. *)
Variable utf8_decode : bytes -> result string.   (* b.decode('utf-8') *)
Variable strptime_timegm : string -> result Z.
  (* calendar.timegm(time.strptime(s, '%Y-%m-%dT%H:%M:%S')) *)
Variable py_int : string -> result Z.            (* int(s) *)

Definition parse_dt (s : string) : result Z :=
  strptime_timegm (PyStr.take 19 s).

(** The value of a card: the chain of tests on [cmd] in the loop of
    [parse].  [f] is the stream, from which a [W] card reads its text. *)
Definition card_val (line cmd : string) (toks : list string) (f : bytes)
  : result (card_value * bytes) :=
  if PyStr.contains cmd "AFJT" then
    Ok (VTuple (map (fun t => IStr (text_unescape t)) toks), f)
  else if PyStr.contains cmd "BGIKMNRZ" then
    t <- first_tok toks ;; Ok (VStr t, f)
  else if PyStr.contains cmd "CHLU" then
    t <- first_tok toks ;; Ok (VStr (text_unescape t), f)
  else if String.eqb cmd "D" then
    t <- first_tok toks ;; d <- parse_dt t ;; Ok (VInt d, f)
  else if String.eqb cmd "E" then
    t <- first_tok toks ;; d <- parse_dt t ;;
    Ok (VTuple (IInt d :: map IStr (tl toks)), f)
  else if PyStr.contains cmd "PQ" then
    Ok (VTuple (map IStr toks), f)
  else if String.eqb cmd "W" then
    t <- first_tok toks ;; size <- py_int t ;;
    let '(text, f') := BytesIO.read (size + 1) f in
    s <- utf8_decode text ;; Ok (VStr s, f')
  else Raise (ValueError (UnrecognizedCard (PyStr.rstrip line))).

(** How the value enters the dictionary. *)
Definition card_store (cmd : string) (val : card_value) (cards : cards_t)
  : result cards_t :=
  if in_set cmd CARDMULTI then
    if cards_contains cmd cards then cards_append cmd val cards
    else Ok (cards_set cmd (Multi [val]) cards)
  else Ok (cards_set cmd (Single val) cards).

(** The body of the [while line] loop, for a decoded line. *)
Definition parse_line (line : string) (f : bytes) (cards : cards_t)
  : result (bytes * cards_t) :=
  match PyStr.split " " (PyStr.rstrip line) with
  | [] => Raise (ValueError (LibraryValueError "not enough values to unpack"))
  | cmd :: toks =>
      '(val, f) <- card_val line cmd toks f ;;
      cards <- card_store cmd val cards ;;
      Ok (f, cards)
  end.

(** The [while line] loop; [None] when [fuel] turns were not enough. *)
Fixpoint parse_while (fuel : nat) (line f : bytes) (cards : cards_t)
  : option (result cards_t) :=
  match fuel with
  | O => None
  | S fuel' =>
      match line with
      | [] => Some (Ok cards)
      | _ :: _ =>
          match (s <- utf8_decode line ;; parse_line s f cards) with
          | Raise e => Some (Raise e)
          | Ok (f, cards) =>
              let '(line, f) := BytesIO.readline f in
              parse_while fuel' line f cards
          end
      end
  end.

(** [StructuralArtifact.parse]: every turn of the loop uses up a line that
    is not empty, so one turn more than there are bytes is enough
    ([parse_while_enough]). *)
Definition parse (blob : bytes) : result cards_t :=
  let f := remove_clearsign blob in
  let '(line, f') := BytesIO.readline f in
  match parse_while (S (List.length f)) line f' [] with
  | Some r => r
  | None => Raise (LibraryError "unreachable")
  end.

End Parser.

(** ** The repository *)

Inductive artifact_t : Type :=
| Artifact (blob : bytes) (rid : Z) (uuid : string)
| File (blob : bytes) (rid : Z) (uuid : string)
| StructuralArtifact (blob : bytes) (rid : Z) (uuid : string)
    (cards : cards_t).

Definition artifact_blob (a : artifact_t) : bytes :=
  match a with
  | Artifact blob _ _ | File blob _ _ | StructuralArtifact blob _ _ _ => blob
  end.

(** The key of a lookup: a row id or a hash. *)
Inductive key_t : Type :=
| ByRid (rid : Z)
| ByUuid (uuid : string).

(** A row of the chain query: [(rid, uuid, content)]. *)
Definition row : Type := Z * string * bytes.

(** The truth value of [blob], which is [None] or a bytes object. *)
Definition truthy (blob : option bytes) : bool :=
  match blob with
  | Some (_ :: _) => true
  | _ => false
  end.

Section Repo.

Variable NUMPY_AVAILABLE : bool.

(** Library calls. *)
Variable zlib_decompress : bytes -> result bytes.
Variable utf8_decode : bytes -> result string.
Variable strptime_timegm : string -> result Z.
Variable py_int : string -> result Z.

(** The rows that the recursive chain query returns for a key, in the order
    of the [ORDER BY] clause. *)
Variable chain_query : key_t -> list row.

Definition decompress (blob : bytes) : result bytes :=
  size <- unpack_be32 (slice blob 0 4) ;;
  orig <- zlib_decompress (slice_from blob 4) ;;
  Ok orig.

(** The local variables of [artifact] that the loop assigns; [None] is a
    name that is not bound yet (for [blob]: bound to [None]). *)
Record locals : Type := mkLocals {
  l_blob : option bytes;
  l_rid : option Z;
  l_uuid : option string
}.

(** The [for rid, uuid, content in ...] loop of [artifact].  The cache is
    an object of the repository: what the loop did to it stays when an
    exception leaves the loop. *)
Fixpoint artifact_for (check : bool) (rows : list row) (st : locals)
  (cache : LRUCache) : result locals * LRUCache :=
  match rows with
  | [] => (Ok st, cache)
  | (rid, uuid, content) :: rows' =>
      if LRUCache_contains rid cache then
        match LRUCache_getitem rid cache with
        | Raise e => (Raise e, cache)
        | Ok (blob, cache') =>
            artifact_for check rows' (mkLocals (Some blob) (Some rid) (Some uuid))
              cache'
        end
      else
        match (if truthy (l_blob st)
               then delta <- decompress content ;;
                    delta_apply NUMPY_AVAILABLE
                      (match l_blob st with Some s => s | None => [] end)
                      delta check
               else decompress content) with
        | Raise e => (Raise e, cache)
        | Ok blob =>
            match LRUCache_setitem rid blob cache with
            | Raise e => (Raise e, cache)
            | Ok cache' =>
                artifact_for check rows'
                  (mkLocals (Some blob) (Some rid) (Some uuid)) cache'
            end
        end
  end.

(** The use of a local name: [UnboundLocalError] when it is not bound. *)
Definition local {A} (name : string) (x : option A) : result A :=
  match x with
  | Some a => Ok a
  | None => Raise (UnboundLocalError name)
  end.

(** What [artifact] does after the loop. *)
Definition artifact_finish (type_ : option string) (st : locals)
  : result artifact_t :=
  if negb (truthy (l_blob st)) then
    rid <- local "rid" (l_rid st) ;;
    Raise (ValueError (CantFindArtifact rid))
  else
    let blob := match l_blob st with Some s => s | None => [] end in
    rid <- local "rid" (l_rid st) ;;
    uuid <- local "uuid" (l_uuid st) ;;
    match type_ with
    | Some "structural"%string =>
        cards <- parse utf8_decode strptime_timegm py_int blob ;;
        Ok (StructuralArtifact blob rid uuid cards)
    | Some "file"%string => Ok (File blob rid uuid)
    | _ => Ok (Artifact blob rid uuid)
    end.

(** [Repo.artifact(key, type_)] on a repository with the given [check]
    flag and [cache]. *)
Definition artifact (check : bool) (cache : LRUCache) (key : key_t)
  (type_ : option string) : result artifact_t * LRUCache :=
  let '(r, cache') :=
    artifact_for check (chain_query key) (mkLocals None None None) cache in
  (st <- r ;; artifact_finish type_ st, cache').

End Repo.

(** ** Runs of digits *)

(** A byte that the table of the decoder takes for a digit. *)
Definition is_digit (d : byte) : bool := 0 <=? zvalue_of (byte_val d).

(** The number that a run of digits writes in base 64, the first digit
    being the most significant one. *)
Definition run_value (ds : bytes) : Z :=
  fold_left (fun v d => v * 64 + zvalue_of (byte_val d)) ds 0.

(** The symbols of [base64_putint] as bytes, in the order in which the
    decoder reads a number: last written first. *)
Definition varint (v : Z) : bytes := rev (b (base64_putint v)).

(** ** Deltas built from numbers *)

(** The delta ["n\nn@0,c;"]: one COPY of [n] bytes from offset 0, and the
    declared checksum [c]. *)
Definition identity_delta (n c : Z) : bytes :=
  varint n ++ [x0a] ++ varint n ++ x40 :: b "0" ++ x2c :: varint c ++ [x3b].

(** The delta ["n\nn:<payload>c;"]: one INSERT of the [n] bytes of
    [payload]. *)
Definition literal_delta (payload : bytes) (c : Z) : bytes :=
  varint (len payload) ++ [x0a] ++ varint (len payload)
    ++ x3a :: payload ++ varint c ++ [x3b].

(** ** Notions of the specification *)

(** A byte value is a digit of the base-64 alphabet when it is the code of
    one of the 64 symbols of [zdigits]. *)
Definition in_alphabet (c : Z) : bool :=
  existsb (fun d => byte_val d =? c) (b zdigits).

(** No digit of the alphabet occurs at [pos]: the offset is at or beyond
    the end of the buffer, or the byte there is not one of the 64
    symbols. *)
Definition no_digit_at (buf : bytes) (pos : Z) : Prop :=
  forall ch, nth_error buf (Z.to_nat pos) = Some ch ->
             in_alphabet (byte_val ch) = false.

(** The envelope stripping in the words of the specification: the lines
    after the first blank line, up to the signature line, each without its
    dash escape. *)
Definition is_blank (ln : bytes) : bool :=
  match PyBytes.rstrip ln with [] => true | _ :: _ => false end.

Definition nonblank (ln : bytes) : bool := negb (is_blank ln).

Definition is_signature (ln : bytes) : bool :=
  bytes_eqb (PyBytes.rstrip ln) pgpsign_header.

Fixpoint after_first_blank (lns : list bytes) : list bytes :=
  match lns with
  | [] => []
  | ln :: lns' => if is_blank ln then lns' else after_first_blank lns'
  end.

Fixpoint until_signature (lns : list bytes) : list bytes :=
  match lns with
  | [] => []
  | ln :: lns' =>
      if is_signature ln then [] else ln :: until_signature lns'
  end.

Definition undash (ln : bytes) : bytes :=
  if startswith (b "- ") ln then slice_from ln 2 else ln.

Definition signed_region (blob : bytes) : list bytes :=
  until_signature (after_first_blank (PyBytes.splitlines blob)).

Definition strip_envelope_spec (blob : bytes) : bytes :=
  PyBytes.join (map undash (signed_region blob)).

(** The checksum in the words of the specification: the sum, modulo 2^32,
    of the big-endian words of the buffer, the last one filled up with zero
    bytes. *)
Fixpoint word_sum (buf : bytes) : Z :=
  match buf with
  | [] => 0
  | [b0] => (byte_val b0 * 16777216) mod uint32
  | [b0; b1] => (byte_val b0 * 16777216 + byte_val b1 * 65536) mod uint32
  | [b0; b1; b2] =>
      (byte_val b0 * 16777216 + byte_val b1 * 65536 + byte_val b2 * 256)
        mod uint32
  | b0 :: b1 :: b2 :: b3 :: rest =>
      (byte_val b0 * 16777216 + byte_val b1 * 65536 + byte_val b2 * 256
       + byte_val b3 + word_sum rest) mod uint32
  end.

(** The card types the parser is meant to know: the keys of
    [CARDTYPES]. *)
Definition recognized (cmd : string) : bool :=
  in_set cmd (map fst CARDTYPES).

(** ** Escaping, character by character *)

(** Every character of [s] replaced by the string [f] gives for it. *)
Fixpoint string_flat_map (f : ascii -> string) (s : string) : string :=
  match s with
  | EmptyString => EmptyString
  | String c s' => (f c ++ string_flat_map f s')%string
  end.

(** What [text_escape] writes for one character. *)
Definition escape_char (c : ascii) : string :=
  if Ascii.eqb c "\" then "\\"
  else if Ascii.eqb c " " then "\s"
  else if Ascii.eqb c (ascii_of_nat 10) then "\n"
  else String c EmptyString.

(** The characters of a string. *)
Definition chars (s : string) : list ascii := list_ascii_of_string s.

(** A text in which no backslash occurs. *)
Definition no_backslash (s : string) : Prop := ~ In "\"%char (chars s).

(** ** More of the cache *)

(** [cache.get(key, default)]: a missing key gives [default] and leaves the
    cache as it is. *)
Definition LRUCache_get (key : Z) (default : option bytes) (c : LRUCache)
  : option bytes * LRUCache :=
  match OrderedDict.pop key (data c) with
  | Ok (value, d) =>
      (Some value,
       {| capacity := capacity c; data := OrderedDict.append key value d |})
  | Raise _ => (default, c)
  end.

(** The keys of the cache, least recently used first. *)
Definition cache_keys (c : LRUCache) : list Z := map fst (data c).

(** ** More of the structural artifact *)

(** The values stored so far under a card type that may repeat. *)
Definition card_values (cmd : string) (cards : cards_t) : list card_value :=
  match cards_get cmd cards with
  | Ok (Multi vals) => vals
  | _ => []
  end.

(** Every entry under a card type of [CARDMULTI] is a list. *)
Definition multi_ok (cards : cards_t) : Prop :=
  forall cmd e,
    in_set cmd CARDMULTI = true ->
    cards_get cmd cards = Ok e ->
    exists vals, e = Multi vals.

(** The card letters whose value is taken from [toks[0]]. *)
Definition CARDS_WITH_ARGUMENT : list string :=
  [ "B"; "G"; "I"; "K"; "M"; "N"; "R"; "Z"; "C"; "H"; "L"; "U"; "D"; "E";
    "W" ]%string.

(** [CARDTYPES_REV[name]]: the letter of a long name. *)
Fixpoint rev_lookup (name : string) (types : list (string * string))
  : option string :=
  match types with
  | [] => None
  | (k, v) :: types' =>
      if String.eqb v name then Some k else rev_lookup name types'
  end.

Section GetItem.

(** [key.upper()], a library call. *)
Variable str_upper : string -> string.

(** [StructuralArtifact.__getitem__] *)
Definition StructuralArtifact_getitem (key : string) (cards : cards_t)
  : result card_entry :=
  if cards_contains (str_upper key) cards then cards_get key cards
  else match rev_lookup key CARDTYPES with
       | Some k => cards_get k cards
       | None => Raise KeyError
       end.

End GetItem.

(** [s.upper()] on a text of ASCII characters: the letters [a] to [z]
    become [A] to [Z]. *)
Definition upper_char (c : ascii) : ascii :=
  let n := nat_of_ascii c in
  if ((97 <=? n) && (n <=? 122))%nat then ascii_of_nat (n - 32) else c.

Fixpoint upper_ascii (s : string) : string :=
  match s with
  | EmptyString => EmptyString
  | String c s' => String (upper_char c) (upper_ascii s')
  end.

(** ** More of the module *)

(** [unsigned_to_signed] *)
Definition unsigned_to_signed (v : Z) : Z :=
  if negb (Z.land v 0x80000000 =? 0) then v - 0x100000000 else v.

Definition artifact_rid (a : artifact_t) : Z :=
  match a with
  | Artifact _ rid _ | File _ rid _ | StructuralArtifact _ rid _ _ => rid
  end.

Definition artifact_uuid (a : artifact_t) : string :=
  match a with
  | Artifact _ _ uuid | File _ _ uuid | StructuralArtifact _ _ uuid _ => uuid
  end.

(** A repository whose only blob is [b"hello"] after its four bytes of
    size. *)
Definition one_blob_row (key : key_t) : list row :=
  [(5, "aaf4c61d"%string, [x00; x00; x00; x05] ++ b "hello")].

(** ** Sample inputs *)

Definition lines_of (lns : list string) : bytes :=
  List.concat (map (fun ln => b ln ++ [x0a]) lns).

(** The source ["abc"] and the delta ["3\n5@0,0;"], whose only COPY asks
    for five bytes from offset 0. *)
Definition short_source : bytes := b "abc".
Definition greedy_delta : bytes := b "3" ++ [x0a] ++ b "5@0,0;".

(** A clear-signed blob whose signed text has a blank line between two
    cards. *)
Definition signed_with_blank : bytes :=
  lines_of [ "-----BEGIN PGP SIGNED MESSAGE-----"; "Hash: SHA1"; "";
             "C hi"; ""; "D 2020-01-02T03:04:05";
             "-----BEGIN PGP SIGNATURE-----"; "sig";
             "-----END PGP SIGNATURE-----" ]%string.

(** A clear-signed blob whose signed text is the (dash-escaped) first line
    of another clear-signed blob. *)
Definition nested_signed : bytes :=
  lines_of [ "-----BEGIN PGP SIGNED MESSAGE-----"; "";
             "- -----BEGIN PGP SIGNED MESSAGE-----" ]%string.

(** Stand-ins for the library calls in the sample lookups: a stored blob
    whose deflate stream is taken as it is, and calls of the parser that
    the samples do not reach. *)
Definition stored (stream : bytes) : result bytes := Ok stream.
Definition no_decode (text : bytes) : result string :=
  Raise (LibraryError "decode").
Definition no_number (s : string) : result Z :=
  Raise (ValueError (LibraryValueError "number")).

(** A repository without rows, and one whose only blob holds nothing
    after its four bytes of size. *)
Definition no_rows (key : key_t) : list row := [].
Definition one_empty_row (key : key_t) : list row :=
  [(1, "da39a3ee"%string, [x00; x00; x00; x00])].

(** * Properties *)

(** ** The base-64 integer codec *)

Module Varint.

Lemma zdigits_in_range (i : Z) :
  0 <= i < 64 -> String.get (Z.to_nat i) zdigits <> None.
Proof.
  intros Hi.
  assert (Hn : (Z.to_nat i < 64)%nat) by lia.
  revert Hn. generalize (Z.to_nat i) as n. intros n Hn.
  do 64 (destruct n as [|n]; [discriminate|]).
  lia.
Qed.

(** The index [v & 0x3f] of the encoder is always inside [zdigits]. *)
Lemma mask_in_range (v : Z) : 0 <= Z.land v 0x3f < 64.
Proof.
  change 0x3f with (Z.ones 6). rewrite Z.land_ones by lia.
  apply Z.mod_pos_bound. reflexivity.
Qed.

Lemma putint_while_done (fuel : nat) (v : Z) (ret : string) :
  v <= 0 -> putint_while fuel v ret = ret.
Proof.
  intros Hv. destruct fuel as [|fuel]; simpl; [reflexivity|].
  destruct (0 <? v) eqn:E; [apply Z.ltb_lt in E; lia | reflexivity].
Qed.

Lemma log2_shiftr6 (v : Z) :
  0 < v -> 0 < Z.shiftr v 6 -> Z.log2 (Z.shiftr v 6) < Z.log2 v.
Proof.
  intros Hv Hs. rewrite Z.log2_shiftr by lia.
  assert (0 <= Z.log2 v) by apply Z.log2_nonneg.
  destruct (Z.max_spec 0 (Z.log2 v - 6)) as [[_ ->]|[Hle ->]]; [lia|].
  assert (Z.log2 v <= 6) by lia.
  assert (Hlt : v < 2 ^ 7).
  { apply Z.log2_lt_pow2; lia. }
  assert (Hz : Z.shiftr v 6 <= 1).
  { rewrite Z.shiftr_div_pow2 by lia.
    apply Z.lt_succ_r. apply Z.div_lt_upper_bound; [reflexivity|].
    change (2 ^ 6 * Z.succ 1) with 128. change (2 ^ 7) with 128 in Hlt. lia. }
  assert (Z.shiftr v 6 = 1) by lia.
  assert (Hge : 2 ^ 6 <= v).
  { rewrite Z.shiftr_div_pow2 in H1 by lia.
    change (2 ^ 6) with 64 in *.
    pose proof (Z.div_mod v 64 ltac:(lia)).
    pose proof (Z.mod_pos_bound v 64 ltac:(lia)). lia. }
  assert (6 <= Z.log2 v) by (apply Z.log2_le_pow2; lia).
  lia.
Qed.

(** The loop of the encoder stops by its own test: any two amounts of fuel
    above the number of bits of [v] give the same string. *)
Lemma putint_while_fuel (f1 : nat) :
  forall (f2 : nat) (v : Z) (ret : string),
    (Z.to_nat (Z.log2 v) < f1)%nat ->
    (Z.to_nat (Z.log2 v) < f2)%nat ->
    putint_while f1 v ret = putint_while f2 v ret.
Proof.
  induction f1 as [|f1 IH]; intros f2 v ret H1 H2; [lia|].
  destruct f2 as [|f2]; [lia|].
  simpl. destruct (0 <? v) eqn:E; [|reflexivity].
  apply Z.ltb_lt in E.
  destruct (Z_le_gt_dec (Z.shiftr v 6) 0) as [Hz|Hz].
  - rewrite !putint_while_done by assumption. reflexivity.
  - pose proof (log2_shiftr6 v E ltac:(lia)).
    pose proof (Z.log2_nonneg (Z.shiftr v 6)).
    apply IH; lia.
Qed.

Lemma putint_while_acc (fuel : nat) :
  forall (v : Z) (ret : string),
    putint_while fuel v ret = (ret ++ putint_while fuel v "")%string.
Proof.
  induction fuel as [|fuel IH]; intros v ret; simpl.
  - induction ret; simpl; congruence.
  - destruct (0 <? v).
    + rewrite IH. rewrite (IH _ (String _ _)).
      clear. induction ret; simpl; [reflexivity|]. f_equal. exact IHret.
    + induction ret; simpl; congruence.
Qed.

(** The encoder writes the lowest-order six bits first: the first symbol of
    the output is the digit of [v & 0x3f], and the rest is the encoding of
    [v >> 6] when bits are left. *)
Lemma base64_putint_step (v : Z) :
  0 < v ->
  base64_putint v =
  String (zdigit (Z.land v 0x3f))
    (if Z.shiftr v 6 =? 0 then EmptyString else base64_putint (Z.shiftr v 6)).
Proof.
  intros Hv. unfold base64_putint.
  destruct (v =? 0) eqn:E; [apply Z.eqb_eq in E; lia|].
  unfold putint_fuel at 1. cbn [putint_while].
  destruct (0 <? v) eqn:E1; [|apply Z.ltb_ge in E1; lia].
  rewrite putint_while_acc. cbn [append]. f_equal.
  assert (Hs : 0 <= Z.shiftr v 6) by (apply Z.shiftr_nonneg; lia).
  destruct (Z.shiftr v 6 =? 0) eqn:E2.
  - apply Z.eqb_eq in E2. rewrite E2. apply putint_while_done. lia.
  - apply Z.eqb_neq in E2.
    pose proof (log2_shiftr6 v Hv ltac:(lia)).
    pose proof (Z.log2_nonneg (Z.shiftr v 6)).
    apply putint_while_fuel; unfold putint_fuel; lia.
Qed.

Lemma base64_putint_zero : base64_putint 0 = "0"%string.
Proof. reflexivity. Qed.

(** One symbol decodes to the value the encoder wrote it for. *)
Lemma roundtrip_one_symbol (v : Z) :
  0 <= v < 64 -> base64_getint (b (base64_putint v)) 0 = Ok (v, 1).
Proof.
  intros Hv.
  assert (Hn : (Z.to_nat v < 64)%nat) by lia.
  rewrite <- (Z2Nat.id v) by lia.
  revert Hn. generalize (Z.to_nat v) as n. intros n Hn.
  do 64 (destruct n as [|n]; [vm_compute; reflexivity|]).
  lia.
Qed.

(** C1.  The round trip through the encoder and the decoder is lost at the
    first value of two symbols: [base64_putint 64] is ["01"] (the
    lowest-order six bits come first), and the decoder, which takes the
    first symbol as the highest-order one, reads [1] from it, not [64]. *)
Theorem base64_roundtrip_breaks_at_64 :
  base64_putint 64 = "01"%string /\
  base64_getint (b (base64_putint 64)) 0 = Ok (1, 2) /\
  base64_getint (b (base64_putint 64)) 0
  <> Ok (64, len (b (base64_putint 64))).
Proof.
  split; [reflexivity|]. split; [reflexivity|].
  vm_compute. discriminate.
Qed.

(** The table of the decoder holds a digit for a byte exactly when the low
    seven bits of the byte are the code of a symbol of the alphabet. *)
Lemma zvalue_of_alphabet (ch : byte) :
  (zvalue_of (byte_val ch) <? 0) =
  negb (in_alphabet (Z.land 0x7f (byte_val ch))).
Proof. destruct ch; vm_compute; reflexivity. Qed.

Lemma slice_from_nth {A} (l : list A) (pos : Z) (x : A) :
  0 <= pos -> nth_error l (Z.to_nat pos) = Some x ->
  exists rest, slice_from l pos = x :: rest.
Proof.
  intros Hpos Hn.
  assert (Hlt : (Z.to_nat pos < List.length l)%nat).
  { apply nth_error_Some. congruence. }
  unfold slice_from, clamp, len.
  destruct (pos <? 0) eqn:E; [apply Z.ltb_lt in E; lia|]. rewrite E.
  destruct (Z.of_nat (List.length l) <? pos) eqn:E1;
    [apply Z.ltb_lt in E1; lia|].
  revert Hn. generalize (Z.to_nat pos) as n. clear.
  intros n; revert l. induction n as [|n IH]; intros [|y l] Hn;
    simpl in *; try discriminate.
  - injection Hn as ->. eauto.
  - apply IH. exact Hn.
Qed.

Lemma slice_from_beyond {A} (l : list A) (pos : Z) :
  len l <= pos -> slice_from l pos = [].
Proof.
  intros Hpos. unfold slice_from, clamp, len in *.
  assert (0 <= pos) by lia.
  destruct (pos <? 0) eqn:E; [apply Z.ltb_lt in E; lia|]. rewrite E.
  destruct (Z.of_nat (List.length l) <? pos) eqn:E1.
  - rewrite Nat2Z.id. apply skipn_all.
  - apply Z.ltb_ge in E1. apply skipn_all2. lia.
Qed.

(** The decoder on an offset at or beyond the end of the buffer: the loop
    has no turn, its [else] clause adds one to a [z] that was never
    assigned. *)
Lemma base64_getint_beyond (buf : bytes) (pos : Z) :
  len buf <= pos -> base64_getint buf pos = Raise (UnboundLocalError "z").
Proof.
  intros Hpos. unfold base64_getint.
  rewrite slice_from_beyond by assumption. reflexivity.
Qed.

(** C6, as the code has it.  At an offset inside the buffer whose byte,
    cut to its low seven bits, is not a symbol of the alphabet, the decoder
    returns the value 0 and the offset itself. *)
Theorem base64_getint_no_digit (buf : bytes) (pos : Z) (ch : byte) :
  0 <= pos ->
  nth_error buf (Z.to_nat pos) = Some ch ->
  in_alphabet (Z.land 0x7f (byte_val ch)) = false ->
  base64_getint buf pos = Ok (0, pos).
Proof.
  intros Hpos Hn Hch.
  destruct (slice_from_nth buf pos ch Hpos Hn) as [rest Hs].
  unfold base64_getint. rewrite Hs. cbn [getint_for].
  rewrite zvalue_of_alphabet, Hch. cbn [negb].
  rewrite Z.add_0_r. reflexivity.
Qed.

Lemma base64_getint_no_digit_witness :
  base64_getint (b "12;") 2 = Ok (0, 2).
Proof.
  apply (base64_getint_no_digit (b "12;") 2 x3b); [lia | reflexivity | reflexivity].
Defined.

(** C6, as the specification has it, fails on a byte above 127: [0xb0] is
    no symbol of the alphabet, yet the decoder masks it to ['0'], takes it
    as a digit and moves on. *)
Lemma base64_getint_masks_high_bit :
  no_digit_at [xb0] 0 /\
  base64_getint [xb0] 0 = Ok (0, 1) /\
  base64_getint [xb0] 0 <> Ok (0, 0).
Proof.
  split; [|split].
  - intros ch Hch. injection Hch as <-. reflexivity.
  - reflexivity.
  - vm_compute. discriminate.
Qed.

End Varint.

(** ** The delta checksum *)

Module Checksum.

(** Induction on a buffer four bytes at a time. *)
Lemma bytes_ind4 (P : bytes -> Prop) :
  P [] ->
  (forall b0, P [b0]) ->
  (forall b0 b1, P [b0; b1]) ->
  (forall b0 b1 b2, P [b0; b1; b2]) ->
  (forall b0 b1 b2 b3 rest, P rest -> P (b0 :: b1 :: b2 :: b3 :: rest)) ->
  forall l, P l.
Proof.
  intros H0 H1 H2 H3 H4.
  fix IH 1. intros [|b0 [|b1 [|b2 [|b3 rest]]]].
  - exact H0.
  - apply H1.
  - apply H2.
  - apply H3.
  - apply H4. apply IH.
Qed.

Lemma len_cons {A} (x : A) (l : list A) : len (x :: l) = 1 + len l.
Proof. unfold len. cbn [List.length]. lia. Qed.

Lemma len_nonneg {A} (l : list A) : 0 <= len l.
Proof. unfold len. lia. Qed.

Lemma len_app {A} (l1 l2 : list A) : len (l1 ++ l2) = len l1 + len l2.
Proof. unfold len. rewrite length_app. lia. Qed.

Lemma len_cons4 {A} (x0 x1 x2 x3 : A) (l : list A) :
  len (x0 :: x1 :: x2 :: x3 :: l) = len l + 1 * 4.
Proof. rewrite !len_cons. lia. Qed.

Lemma clamp_id (n i : Z) : 0 <= i <= n -> clamp n i = i.
Proof.
  intros H. unfold clamp.
  destruct (i <? 0) eqn:E; [apply Z.ltb_lt in E; lia|]. rewrite E.
  destruct (n <? i) eqn:E1; [apply Z.ltb_lt in E1; lia|]. reflexivity.
Qed.

Lemma clamp_over (n i : Z) : 0 <= n <= i -> clamp n i = n.
Proof.
  intros H. unfold clamp.
  destruct (i <? 0) eqn:E; [apply Z.ltb_lt in E; lia|]. rewrite E.
  destruct (n <? i) eqn:E1; [reflexivity|]. apply Z.ltb_ge in E1. lia.
Qed.

(** A slice between bounds that are not negative needs no clamping. *)
Lemma slice_from_nonneg {A} (l : list A) (lo : Z) :
  0 <= lo -> slice_from l lo = skipn (Z.to_nat lo) l.
Proof.
  intros Hlo. unfold slice_from.
  destruct (Z_le_gt_dec lo (len l)) as [H|H].
  - rewrite clamp_id by lia. reflexivity.
  - rewrite clamp_over by (pose proof (len_nonneg l); lia).
    unfold len in *. rewrite Nat2Z.id.
    rewrite skipn_all. symmetry. apply skipn_all2. lia.
Qed.

Lemma slice_nonneg {A} (l : list A) (lo hi : Z) :
  0 <= lo -> 0 <= hi ->
  slice l lo hi = firstn (Z.to_nat (hi - lo)) (skipn (Z.to_nat lo) l).
Proof.
  intros Hlo Hhi. unfold slice.
  pose proof (len_nonneg l) as Hn.
  destruct (Z_le_gt_dec lo (len l)) as [H|H].
  - rewrite (clamp_id _ lo) by lia.
    destruct (Z_le_gt_dec hi (len l)) as [H'|H'].
    + rewrite clamp_id by lia. reflexivity.
    + rewrite clamp_over by lia.
      assert (Hl : List.length (skipn (Z.to_nat lo) l)
                   = Z.to_nat (len l - lo)).
      { rewrite length_skipn. unfold len. lia. }
      rewrite !firstn_all2 by lia. reflexivity.
  - rewrite (clamp_over _ lo) by lia.
    replace (skipn (Z.to_nat lo) l) with (@nil A)
      by (symmetry; apply skipn_all2; unfold len in *; lia).
    unfold len. rewrite Nat2Z.id, skipn_all, !firstn_nil. reflexivity.
Qed.

Lemma unpack_be32_word (b0 b1 b2 b3 : byte) :
  unpack_be32 [b0; b1; b2; b3] =
  Ok (byte_val b0 * 16777216 + byte_val b1 * 65536 + byte_val b2 * 256
      + byte_val b3).
Proof. unfold unpack_be32. f_equal. lia. Qed.

Lemma byte_val_x00 : byte_val x00 = 0.
Proof. reflexivity. Qed.

Lemma word_sum_cons4 (b0 b1 b2 b3 : byte) (rest : bytes) :
  word_sum (b0 :: b1 :: b2 :: b3 :: rest) =
  (byte_val b0 * 16777216 + byte_val b1 * 65536 + byte_val b2 * 256
   + byte_val b3 + word_sum rest) mod uint32.
Proof. reflexivity. Qed.

Lemma word_sum_range (buf : bytes) : 0 <= word_sum buf < uint32.
Proof.
  destruct buf as [|b0 [|b1 [|b2 [|b3 rest]]]];
    [unfold uint32; simpl; lia | | | |];
    cbn [word_sum]; apply Z.mod_pos_bound; reflexivity.
Qed.

Lemma fold_sum_acc (ws : list Z) :
  forall acc,
    fold_left (fun acc w => (acc + w) mod uint32) ws (acc mod uint32) =
    (acc + array_sum ws) mod uint32.
Proof.
  unfold array_sum.
  induction ws as [|w ws IH]; intros acc; cbn [fold_left].
  - rewrite Z.add_0_r. reflexivity.
  - rewrite !IH. rewrite Zplus_mod_idemp_r.
    rewrite <- Z.add_assoc, Zplus_mod_idemp_l, Z.add_0_l.
    f_equal; lia.
Qed.

Lemma array_sum_cons (w : Z) (ws : list Z) :
  array_sum (w :: ws) = (w + array_sum ws) mod uint32.
Proof.
  unfold array_sum at 1. cbn [fold_left]. rewrite Z.add_0_l.
  apply fold_sum_acc.
Qed.

(** With numpy the checksum is the word sum of the specification. *)
Lemma delta_checksum_numpy_word_sum (blob : bytes) :
  delta_checksum_numpy blob = Ok (word_sum blob).
Proof.
  unfold delta_checksum_numpy.
  induction blob as [|b0|b0 b1|b0 b1 b2|b0 b1 b2 b3 rest IH] using bytes_ind4;
    try (match goal with
         | |- context [zeros ?n] =>
             let z := eval vm_compute in (zeros n) in
             change (zeros n) with z
         end;
         cbn [app frombuffer]; rewrite unpack_be32_word; cbn [bind];
         unfold array_sum; cbn [fold_left word_sum];
         rewrite ?byte_val_x00; f_equal; f_equal; lia).
  rewrite len_cons4, Z_mod_plus_full.
  change ((b0 :: b1 :: b2 :: b3 :: rest) ++ zeros (4 - len rest mod 4))
    with (b0 :: b1 :: b2 :: b3 :: (rest ++ zeros (4 - len rest mod 4))).
  cbn [frombuffer]. rewrite unpack_be32_word. cbn [bind].
  destruct (frombuffer (rest ++ zeros (4 - len rest mod 4))) as [ws|e];
    cbn [bind] in *; [|discriminate].
  injection IH as IH. rewrite array_sum_cons, IH, word_sum_cons4.
  reflexivity.
Qed.

Lemma checksum_for_shift (b0 b1 b2 b3 : byte) (rest : bytes)
  (range : list nat) :
  forall checksum,
    checksum_for (b0 :: b1 :: b2 :: b3 :: rest) (map S range) checksum =
    checksum_for rest range checksum.
Proof.
  induction range as [|i range IH]; intros checksum; cbn [map checksum_for];
    [reflexivity|].
  rewrite !slice_nonneg by lia.
  replace (Z.to_nat (Z.of_nat (S i) * 4)) with (4 + Z.to_nat (Z.of_nat i * 4))%nat
    by lia.
  cbn [skipn Nat.add].
  replace (Z.of_nat (S i) * 4 + 4 - Z.of_nat (S i) * 4) with
    (Z.of_nat i * 4 + 4 - Z.of_nat i * 4) by lia.
  destruct (unpack_be32 _); cbn [bind]; [apply IH | reflexivity].
Qed.

Ltac small_blob :=
  match goal with
  | |- context [len ?l] =>
      let n := eval vm_compute in (len l) in
      change (len l) with n
  end;
  match goal with
  | |- context [Z.to_nat (?n / 4)] =>
      change (Z.to_nat (n / 4)) with 0%nat;
      change (n / 4 * 4) with 0;
      let m := eval vm_compute in (zeros (4 - n mod 4)) in
      change (zeros (4 - n mod 4)) with m
  end;
  cbn [seq checksum_for bind];
  rewrite slice_from_nonneg by lia; cbn [Z.to_nat skipn app];
  rewrite unpack_be32_word; cbn [bind word_sum];
  rewrite ?byte_val_x00, ?Zplus_mod_idemp_r; f_equal; f_equal; lia.

Lemma delta_checksum_native_acc (blob : bytes) :
  forall checksum,
    (c <- checksum_for blob (seq 0 (Z.to_nat (len blob / 4))) checksum ;;
     w <- unpack_be32 (slice_from blob (len blob / 4 * 4)
                         ++ zeros (4 - len blob mod 4)) ;;
     Ok ((c + w) mod uint32))
    = Ok ((checksum + word_sum blob) mod uint32).
Proof.
  induction blob as [|b0|b0 b1|b0 b1 b2|b0 b1 b2 b3 rest IH] using bytes_ind4;
    intros checksum.
  - small_blob.
  - small_blob.
  - small_blob.
  - small_blob.
  - rewrite len_cons4, Z_div_plus_full, Z_mod_plus_full by lia.
  pose proof (len_nonneg rest) as Hn.
  assert (Hd : 0 <= len rest / 4) by (apply Z.div_pos; lia).
  replace (Z.to_nat (len rest / 4 + 1)) with (S (Z.to_nat (len rest / 4)))
    by lia.
  cbn [seq]. rewrite <- seq_shift. cbn [checksum_for].
  rewrite slice_nonneg by lia.
  change (firstn _ _) with [b0; b1; b2; b3].
  rewrite unpack_be32_word. cbn [bind].
  rewrite checksum_for_shift.
  rewrite slice_from_nonneg by lia.
  replace (Z.to_nat ((len rest / 4 + 1) * 4))
    with (4 + Z.to_nat (len rest / 4 * 4))%nat by lia.
  cbn [skipn Nat.add].
  rewrite <- (slice_from_nonneg rest) by lia.
  rewrite IH, word_sum_cons4.
  rewrite Zplus_mod_idemp_l, Zplus_mod_idemp_r. f_equal. f_equal. lia.
Qed.

(** Without numpy the checksum is the word sum of the specification. *)
Lemma delta_checksum_native_word_sum (blob : bytes) :
  delta_checksum_native blob = Ok (word_sum blob).
Proof.
  unfold delta_checksum_native.
  rewrite delta_checksum_native_acc. rewrite Z.add_0_l.
  f_equal. apply Z.mod_small. apply word_sum_range.
Qed.

(** Both definitions compute the same sum and never raise. *)
Lemma delta_checksum_word_sum (np : bool) (blob : bytes) :
  delta_checksum np blob = Ok (word_sum blob).
Proof.
  destruct np; [apply delta_checksum_numpy_word_sum
               | apply delta_checksum_native_word_sum].
Qed.

Lemma word_sum_app (x : bytes) :
  len x mod 4 = 0 ->
  forall y, word_sum (x ++ y) = (word_sum x + word_sum y) mod uint32.
Proof.
  induction x as [|b0|b0 b1|b0 b1 b2|b0 b1 b2 b3 rest IH] using bytes_ind4;
    intros Hx y; try (vm_compute in Hx; discriminate).
  - cbn [app word_sum]. rewrite Z.add_0_l.
    symmetry. apply Z.mod_small. apply word_sum_range.
  - rewrite len_cons4, Z_mod_plus_full in Hx.
    change ((b0 :: b1 :: b2 :: b3 :: rest) ++ y)
      with (b0 :: b1 :: b2 :: b3 :: (rest ++ y)).
    rewrite !word_sum_cons4, IH by assumption.
    rewrite Zplus_mod_idemp_r, Zplus_mod_idemp_l. f_equal. lia.
Qed.

(** C8.  Whichever definition is in use, the checksum is the word sum of
    the padded buffer, and on a first buffer whose length is a multiple of
    four the checksum of a concatenation is the sum of the checksums modulo
    2^32. *)
Theorem delta_checksum_concat (np : bool) (x y : bytes) :
  len x mod 4 = 0 ->
  delta_checksum np x = Ok (word_sum x) /\
  delta_checksum np y = Ok (word_sum y) /\
  delta_checksum np (x ++ y) = Ok ((word_sum x + word_sum y) mod 2 ^ 32).
Proof.
  intros Hx. rewrite !delta_checksum_word_sum.
  repeat split. f_equal. apply word_sum_app. exact Hx.
Qed.

Lemma delta_checksum_concat_witness :
  delta_checksum false (b "abcd") = Ok (word_sum (b "abcd")) /\
  delta_checksum false (b "xyz") = Ok (word_sum (b "xyz")) /\
  delta_checksum false (b "abcd" ++ b "xyz")
  = Ok ((word_sum (b "abcd") + word_sum (b "xyz")) mod 2 ^ 32).
Proof.
  apply (delta_checksum_concat false (b "abcd") (b "xyz")). reflexivity.
Defined.

End Checksum.

(** ** The delta decoder *)

Module DeltaDecoder.

Lemma getint_for_bounds (items : bytes) :
  forall i z v e zo v',
    0 <= v ->
    getint_for items i z v = (e, zo, v') ->
    0 <= v' /\ ((zo = z /\ items = []) \/ exists z', zo = Some z' /\ i <= z').
Proof.
  induction items as [|ch items IH]; intros i z v e zo v' Hv H;
    cbn [getint_for] in H.
  - injection H as <- <- <-. split; [exact Hv | left; split; reflexivity].
  - destruct (zvalue_of (byte_val ch) <? 0) eqn:E.
    + injection H as <- <- <-. split; [exact Hv|].
      right. exists i. split; [reflexivity | lia].
    + apply Z.ltb_ge in E.
      apply IH in H.
      * destruct H as [Hv' [[-> _]|[z' [-> Hz]]]];
          (split; [exact Hv'|]); right.
        -- exists i. split; [reflexivity | lia].
        -- exists z'. split; [reflexivity | lia].
      * pose proof (proj2 (Z.shiftl_nonneg v 6) Hv). lia.
Qed.

(** The decoder returns a value that is not negative and an offset that is
    not before the one it started from. *)
Lemma base64_getint_bounds (buf : bytes) (pos v pos' : Z) :
  base64_getint buf pos = Ok (v, pos') -> 0 <= v /\ pos <= pos'.
Proof.
  unfold base64_getint.
  destruct (getint_for (slice_from buf pos) 0 None 0) as [[e zo] v0] eqn:E.
  apply getint_for_bounds in E; [|lia].
  destruct E as [Hv [[-> _]|[z' [-> Hz]]]].
  - destruct e; discriminate.
  - destruct e; intros H; injection H as <- <-; lia.
Qed.

(** A turn of the loop that goes on has moved the position forward. *)
Lemma delta_body_progress (blob delta : bytes) (pos : Z) (newblob : bytes)
  (pos' : Z) (newblob' : bytes) :
  delta_body blob delta pos newblob = Ok (Continue pos' newblob') ->
  pos < pos'.
Proof.
  unfold delta_body.
  destruct (base64_getint delta pos) as [[num p1]|e] eqn:E1;
    cbn [bind]; [|discriminate].
  apply base64_getint_bounds in E1. destruct E1 as [Hnum Hp1].
  destruct (index delta p1) as [op|e]; cbn [bind]; [|discriminate].
  destruct (op =? 64).
  - destruct (base64_getint delta (p1 + 1)) as [[offset p2]|e] eqn:E2;
      cbn [bind]; [|discriminate].
    apply base64_getint_bounds in E2. destruct E2 as [_ Hp2].
    intros H. injection H as <- _. lia.
  - destruct (op =? 58).
    + intros H. injection H as <- _. lia.
    + destruct (op =? 59); discriminate.
Qed.

(** The loop ends: with more turns allowed than bytes are left, the fuel is
    never used up. *)
Lemma delta_while_enough (blob delta : bytes) (fuel : nat) :
  forall pos newblob,
    (Z.to_nat (len delta - pos) < fuel)%nat ->
    delta_while fuel blob delta pos newblob <> None.
Proof.
  induction fuel as [|fuel IH]; intros pos newblob Hf; [lia|].
  cbn [delta_while].
  destruct (pos <? len delta) eqn:E; [|discriminate].
  apply Z.ltb_lt in E.
  destruct (delta_body blob delta pos newblob) as [[pos' newblob'|c]|e] eqn:B;
    try discriminate.
  apply delta_body_progress in B. apply IH. lia.
Qed.

Lemma delta_apply_fuel_enough (np : bool) (blob delta : bytes)
  (check : bool) :
  delta_apply_fuel np (S (List.length delta)) blob delta check <> None.
Proof.
  unfold delta_apply_fuel.
  destruct (base64_getint delta 0) as [[targetsize pos]|e] eqn:E;
    [|discriminate].
  apply base64_getint_bounds in E. destruct E as [_ Hpos].
  pose proof (delta_while_enough blob delta (S (List.length delta))
                (pos + 1) []) as H.
  destruct (delta_while _ _ _ _ _) as [[[c buf]|e]|]; try discriminate.
  exfalso. apply H; [unfold len; lia | reflexivity].
Qed.

(** [delta_apply] is its fuelled form: the branch for used-up fuel is never
    taken. *)
Lemma delta_apply_unfold (np : bool) (blob delta : bytes) (check : bool) :
  delta_apply_fuel np (S (List.length delta)) blob delta check
  = Some (delta_apply np blob delta check).
Proof.
  unfold delta_apply.
  pose proof (delta_apply_fuel_enough np blob delta check) as H.
  destruct (delta_apply_fuel _ _ _ _ _); [reflexivity | contradiction].
Qed.

(** A successful decoding has produced as many bytes as the delta
    declares. *)
Lemma delta_apply_size (np : bool) (blob delta : bytes) (check : bool)
  (out : bytes) :
  delta_apply np blob delta check = Ok out ->
  exists targetsize pos,
    base64_getint delta 0 = Ok (targetsize, pos) /\ len out = targetsize.
Proof.
  intros H. pose proof (delta_apply_unfold np blob delta check) as U.
  rewrite H in U. unfold delta_apply_fuel in U.
  destruct (base64_getint delta 0) as [[targetsize pos]|e];
    [|discriminate].
  exists targetsize, pos. split; [reflexivity|].
  destruct (delta_while _ _ _ _ _) as [[[c buf]|e]|]; try discriminate.
  injection U as U. unfold delta_finish in U.
  destruct (targetsize =? len buf) eqn:E; cbn [negb] in U; [|discriminate].
  apply Z.eqb_eq in E.
  destruct check.
  - destruct (delta_checksum np buf) as [s|e]; cbn [bind] in U;
      [|discriminate].
    destruct (c =? s); cbn [negb] in U; [|discriminate].
    injection U as <-. symmetry; exact E.
  - injection U as <-. symmetry; exact E.
Qed.

(** C5, as the code has it.  A COPY is not checked against the length of
    the source: the turn of the loop appends the slice
    [blob[offset:offset+num]], cut at the end of the source, and goes on.
    What guards the result is the size test after the loop: a decoding that
    succeeds has produced exactly the declared number of bytes. *)
Theorem delta_apply_copy_unchecked (np : bool) (blob delta : bytes)
  (check : bool) (pos : Z) (newblob : bytes) (num p1 offset p2 : Z) :
  base64_getint delta pos = Ok (num, p1) ->
  index delta p1 = Ok 64 ->
  base64_getint delta (p1 + 1) = Ok (offset, p2) ->
  delta_body blob delta pos newblob
  = Ok (Continue (p2 + 1) (newblob ++ slice blob offset (offset + num))) /\
  (forall out,
      delta_apply np blob delta check = Ok out ->
      exists targetsize p,
        base64_getint delta 0 = Ok (targetsize, p) /\ len out = targetsize).
Proof.
  intros H1 Hop H2. split.
  - unfold delta_body. rewrite H1. cbn [bind]. rewrite Hop. cbn [bind].
    change (64 =? 64) with true. cbv iota. rewrite H2. reflexivity.
  - intros out. apply delta_apply_size.
Qed.

Lemma delta_apply_copy_unchecked_witness :
  delta_body short_source greedy_delta 2 []
  = Ok (Continue 6 ([] ++ slice short_source 0 (0 + 5))) /\
  (forall out,
      delta_apply false short_source greedy_delta false = Ok out ->
      exists targetsize p,
        base64_getint greedy_delta 0 = Ok (targetsize, p) /\
        len out = targetsize).
Proof.
  apply (delta_apply_copy_unchecked false short_source greedy_delta false
           2 [] 5 3 0 5); reflexivity.
Defined.

(** C5, as the specification has it, fails: the COPY of [greedy_delta] has
    [offset + n = 5 > 3 = len source], and the decoding returns the three
    bytes of the source, which is the size the delta declares. *)
Lemma delta_apply_truncated_copy_succeeds :
  base64_getint greedy_delta 2 = Ok (5, 3) /\
  index greedy_delta 3 = Ok 64 /\
  base64_getint greedy_delta 4 = Ok (0, 5) /\
  0 + 5 > len short_source /\
  delta_apply false short_source greedy_delta false = Ok short_source /\
  delta_apply true short_source greedy_delta false = Ok short_source.
Proof. repeat split; vm_compute; reflexivity. Qed.

End DeltaDecoder.

(** ** The clear-sign stripper *)

Module Clearsign.

Lemma blank_not_signature (ln : bytes) :
  is_blank ln = true -> is_signature ln = false.
Proof.
  unfold is_blank, is_signature.
  destruct (PyBytes.rstrip ln); [reflexivity | discriminate].
Qed.

(** Once the flag [content] is set, the loop appends the lines up to the
    signature, without their dash escapes, and passes over the blank
    ones. *)
Lemma clearsign_for_content (lns : list bytes) :
  forall lines,
    clearsign_for lns true lines =
    lines ++ map undash (filter nonblank (until_signature lns)).
Proof.
  induction lns as [|ln lns IH]; intros lines;
    cbn [clearsign_for until_signature].
  - cbn. rewrite app_nil_r. reflexivity.
  - unfold is_signature.
    destruct (PyBytes.rstrip ln) as [|c r] eqn:E.
    + change (bytes_eqb [] pgpsign_header) with false. cbn [filter].
      unfold nonblank at 1, is_blank. rewrite E. cbn [negb]. apply IH.
    + destruct (bytes_eqb (c :: r) pgpsign_header).
      * cbn. rewrite app_nil_r. reflexivity.
      * cbn [filter]. unfold nonblank at 1, is_blank. rewrite E.
        cbn [negb map].
        assert (U : undash ln
                    = if startswith (b "- ") ln then slice_from ln 2 else ln)
          by reflexivity.
        rewrite U.
        destruct (startswith (b "- ") ln); rewrite IH, <- app_assoc;
          reflexivity.
Qed.

(** Before that, it looks for the first blank line. *)
Lemma clearsign_for_header (lns : list bytes) :
  forall lines,
    clearsign_for lns false lines =
    clearsign_for (after_first_blank lns) true lines.
Proof.
  induction lns as [|ln lns IH]; intros lines;
    cbn [clearsign_for after_first_blank]; [reflexivity|].
  unfold is_blank.
  destruct (PyBytes.rstrip ln); [reflexivity | apply IH].
Qed.

(** What the stripper returns for a blob with the header: the lines of the
    signed region that are not blank, without their dash escapes. *)
Lemma remove_clearsign_signed (blob : bytes) :
  startswith clearsign_header blob = true ->
  remove_clearsign blob =
  PyBytes.join (map undash (filter nonblank (signed_region blob))).
Proof.
  intros H. unfold remove_clearsign. rewrite H. cbn [negb].
  rewrite clearsign_for_header, clearsign_for_content. reflexivity.
Qed.

Lemma remove_clearsign_unsigned (blob : bytes) :
  startswith clearsign_header blob = false -> remove_clearsign blob = blob.
Proof. intros H. unfold remove_clearsign. rewrite H. reflexivity. Qed.

(** C3.  On a signed text with a blank line in it the stripper leaves the
    blank line out, where the specification keeps every line of the
    region. *)
Theorem remove_clearsign_drops_blank_line :
  startswith clearsign_header signed_with_blank = true /\
  remove_clearsign signed_with_blank
  = lines_of [ "C hi"; "D 2020-01-02T03:04:05" ]%string /\
  strip_envelope_spec signed_with_blank
  = lines_of [ "C hi"; ""; "D 2020-01-02T03:04:05" ]%string /\
  remove_clearsign signed_with_blank <> strip_envelope_spec signed_with_blank.
Proof.
  repeat split; try (vm_compute; reflexivity).
  vm_compute. discriminate.
Qed.

(** The lines of [splitlines] put together again are the buffer. *)
Lemma splitlines_from_join (n : nat) :
  forall (l cur : bytes),
    (List.length l <= n)%nat ->
    PyBytes.join (PyBytes.splitlines_from cur l) = cur ++ l.
Proof.
  unfold PyBytes.join.
  induction n as [|n IH]; intros [|c l] cur Hn; cbn [List.length] in Hn;
    try lia;
    try (cbn [PyBytes.splitlines_from]; destruct cur; cbn [List.concat];
         rewrite ?app_nil_r; reflexivity).
  assert (Hdef : List.concat (PyBytes.splitlines_from (cur ++ [c]) l)
                 = cur ++ c :: l).
  { rewrite IH by lia. rewrite <- app_assoc. reflexivity. }
  assert (Hcut : List.concat ((cur ++ [c]) :: PyBytes.splitlines_from [] l)
                 = cur ++ c :: l).
  { cbn [List.concat]. rewrite IH by lia. rewrite <- app_assoc.
    reflexivity. }
  destruct c; try exact Hdef; try exact Hcut.
  cbn [PyBytes.splitlines_from].
  destruct l as [|d l']; [exact Hcut|].
  destruct d; try exact Hcut.
  cbn [List.concat]. cbn [List.length] in Hn. rewrite IH by lia.
  rewrite <- app_assoc. reflexivity.
Qed.

Lemma splitlines_join (blob : bytes) :
  PyBytes.join (PyBytes.splitlines blob) = blob.
Proof.
  unfold PyBytes.splitlines.
  apply (splitlines_from_join (List.length blob)). lia.
Qed.

(** No line of [splitlines] is empty; here for the first one. *)
Lemma splitlines_from_head (l : bytes) :
  forall cur l1 rest,
    PyBytes.splitlines_from cur l = l1 :: rest -> l1 <> [].
Proof.
  induction l as [|c l IH]; intros cur l1 rest H.
  - cbn in H. destruct cur; [discriminate|]. injection H as <- _.
    discriminate.
  - assert (Hcut : forall t r, (cur ++ t :: r) :: rest = l1 :: rest ->
                               l1 <> []).
    { intros t r E. injection E as <-. destruct cur; discriminate. }
    destruct c;
      try (cbn [PyBytes.splitlines_from] in H; apply IH in H; exact H);
      cbn [PyBytes.splitlines_from] in H.
    + injection H as <- _. destruct cur; discriminate.
    + destruct l as [|d l']; [injection H as <- _; destruct cur; discriminate|].
      destruct d; injection H as <- _; destruct cur; discriminate.
Qed.

Lemma undash_length (ln : bytes) :
  (List.length (undash ln) <= List.length ln)%nat.
Proof.
  unfold undash. destruct (startswith (b "- ") ln); [|lia].
  unfold slice_from. rewrite length_skipn. lia.
Qed.

Lemma region_length (lns : list bytes) :
  (List.length (List.concat (map undash (filter nonblank (until_signature lns))))
   <= List.length (List.concat lns))%nat.
Proof.
  induction lns as [|ln lns IH]; cbn [until_signature]; [cbn; lia|].
  cbn [List.concat]. rewrite length_app.
  destruct (is_signature ln); [cbn; lia|].
  cbn [filter]. destruct (nonblank ln); [|lia].
  cbn [map List.concat]. rewrite length_app.
  pose proof (undash_length ln). lia.
Qed.

Lemma after_first_blank_length (lns : list bytes) :
  (List.length (List.concat (after_first_blank lns))
   <= List.length (List.concat lns))%nat.
Proof.
  induction lns as [|ln lns IH]; cbn [after_first_blank]; [lia|].
  cbn [List.concat]. rewrite length_app.
  destruct (is_blank ln); lia.
Qed.

(** Stripping a blob that has the header always takes bytes away: at least
    the first line goes. *)
Lemma remove_clearsign_shorter (blob : bytes) :
  startswith clearsign_header blob = true ->
  (List.length (remove_clearsign blob) < List.length blob)%nat.
Proof.
  intros H. rewrite remove_clearsign_signed by exact H.
  unfold signed_region, PyBytes.join.
  pose proof (splitlines_join blob) as J.
  unfold PyBytes.splitlines, PyBytes.join in *.
  destruct (PyBytes.splitlines_from [] blob) as [|l1 rest] eqn:E.
  - cbn in J. subst blob. discriminate.
  - apply splitlines_from_head in E.
    cbn [List.concat] in J. rewrite <- J, length_app.
    pose proof (region_length (after_first_blank (l1 :: rest))) as R.
    assert (A : (List.length (List.concat (after_first_blank (l1 :: rest)))
                 <= List.length (List.concat rest))%nat).
    { cbn [after_first_blank]. destruct (is_blank l1); [lia|].
      apply after_first_blank_length. }
    destruct l1; [contradiction|]. cbn [List.length]. lia.
Qed.

(** C7, as the code has it.  A blob without the header comes back as it
    is; and stripping twice is the same as stripping once exactly when the
    stripped blob does not itself begin with the header. *)
Theorem remove_clearsign_twice (blob : bytes) :
  (startswith clearsign_header blob = false -> remove_clearsign blob = blob)
  /\
  (remove_clearsign (remove_clearsign blob) = remove_clearsign blob
   <-> startswith clearsign_header (remove_clearsign blob) = false).
Proof.
  split; [apply remove_clearsign_unsigned|]. split.
  - intros Hidem.
    destruct (startswith clearsign_header (remove_clearsign blob)) eqn:E;
      [|reflexivity].
    apply remove_clearsign_shorter in E. rewrite Hidem in E. lia.
  - apply remove_clearsign_unsigned.
Qed.

Lemma remove_clearsign_twice_witness :
  remove_clearsign (b "C hi") = b "C hi" /\
  remove_clearsign (remove_clearsign signed_with_blank)
  = remove_clearsign signed_with_blank.
Proof.
  split.
  - apply (proj1 (remove_clearsign_twice (b "C hi"))). reflexivity.
  - apply (proj2 (proj2 (remove_clearsign_twice signed_with_blank))).
    reflexivity.
Defined.

(** C7, as the specification has it, fails on a signed text that begins
    with the header: the first stripping leaves that line, the second one
    takes it for an envelope and leaves nothing. *)
Lemma remove_clearsign_not_idempotent :
  remove_clearsign nested_signed
  = lines_of [ "-----BEGIN PGP SIGNED MESSAGE-----" ]%string /\
  remove_clearsign (remove_clearsign nested_signed) = [] /\
  remove_clearsign (remove_clearsign nested_signed)
  <> remove_clearsign nested_signed.
Proof.
  repeat split; try (vm_compute; reflexivity).
  vm_compute. discriminate.
Qed.

End Clearsign.

(** ** Escaped text *)

Module Text.

(** C4.  On the three characters backslash, backslash, [s] the three
    replacements of [text_unescape] give a backslash and a space, where one
    pass from left to right gives a backslash and an [s].  The string is
    what [text_escape] makes of a backslash followed by [s], so that
    [text_unescape] does not undo [text_escape], and the single pass
    does. *)
Theorem text_unescape_differs_from_single_pass :
  text_unescape "\\s" = "\ "%string /\
  text_unescape_single_pass "\\s" = "\s"%string /\
  text_escape "\s" = "\\s"%string /\
  text_unescape (text_escape "\s") <> "\s"%string /\
  text_unescape_single_pass (text_escape "\s") = "\s"%string.
Proof.
  repeat split; try (vm_compute; reflexivity).
  vm_compute. discriminate.
Qed.

End Text.

(** ** The card parser *)

Module CardParser.

Section Library.

Variable utf8_decode : bytes -> result string.
Variable strptime_timegm : string -> result Z.
Variable py_int : string -> result Z.

Abbreviation line_body := (parse_line utf8_decode strptime_timegm py_int).
Abbreviation line_loop := (parse_while utf8_decode strptime_timegm py_int).
Abbreviation line_val := (card_val utf8_decode strptime_timegm py_int).

Lemma readline_length (f : bytes) :
  (List.length (fst (BytesIO.readline f))
   + List.length (snd (BytesIO.readline f)) = List.length f)%nat.
Proof.
  induction f as [|c f IH]; cbn [BytesIO.readline]; [reflexivity|].
  destruct (Byte.eqb c x0a); [reflexivity|].
  destruct (BytesIO.readline f) as [line rest]. cbn in *. lia.
Qed.

Lemma read_length (n : Z) (f : bytes) :
  (List.length (snd (BytesIO.read n f)) <= List.length f)%nat.
Proof.
  unfold BytesIO.read. destruct (n <? 0); cbn [snd List.length]; [lia|].
  rewrite length_skipn. lia.
Qed.

(** Computing the value of a card never puts bytes back into the
    stream. *)
Lemma card_val_stream (line cmd : string) (toks : list string)
  (f : bytes) (val : card_value) (f' : bytes) :
  line_val line cmd toks f = Ok (val, f') ->
  (List.length f' <= List.length f)%nat.
Proof.
  unfold card_val.
  repeat match goal with
         | |- (if ?c then _ else _) = _ -> _ => destruct c
         end;
    try discriminate;
    try (intros H; injection H as _ <-; lia);
    destruct (first_tok toks) as [t|e]; cbn [bind]; try discriminate;
    try (intros H; injection H as _ <-; lia).
  - unfold parse_dt. destruct (strptime_timegm _); cbn [bind];
      [intros H; injection H as _ <-; lia | discriminate].
  - unfold parse_dt. destruct (strptime_timegm _); cbn [bind];
      [intros H; injection H as _ <-; lia | discriminate].
  - destruct (py_int t) as [size|e]; cbn [bind]; [|discriminate].
    pose proof (read_length (size + 1) f) as R.
    destruct (BytesIO.read (size + 1) f) as [text rest].
    destruct (utf8_decode text); cbn [bind]; [|discriminate].
    intros H; injection H as _ <-. exact R.
Qed.

Lemma parse_line_stream (line : string) (f : bytes) (cards : cards_t)
  (f' : bytes) (cards' : cards_t) :
  line_body line f cards = Ok (f', cards') ->
  (List.length f' <= List.length f)%nat.
Proof.
  unfold parse_line.
  destruct (PyStr.split " " (PyStr.rstrip line)) as [|cmd toks];
    [discriminate|].
  destruct (line_val line cmd toks f) as [[val f0]|e] eqn:E; cbn [bind];
    [|discriminate].
  apply card_val_stream in E.
  destruct (card_store cmd val cards); cbn [bind]; [|discriminate].
  intros H; injection H as <- _. exact E.
Qed.

(** The loop of the parser ends: every turn uses up a line that is not
    empty. *)
Lemma parse_while_enough (fuel : nat) :
  forall line f cards,
    (List.length line + List.length f < fuel)%nat ->
    line_loop fuel line f cards <> None.
Proof.
  induction fuel as [|fuel IH]; intros line f cards Hf; [lia|].
  cbn [parse_while].
  destruct line as [|c line]; [discriminate|].
  destruct (utf8_decode (c :: line)) as [s|e]; cbn [bind]; [|discriminate].
  destruct (line_body s f cards) as [[f' cards']|e] eqn:E; [|discriminate].
  apply parse_line_stream in E.
  pose proof (readline_length f') as R.
  destruct (BytesIO.readline f') as [line' f'']. cbn [fst snd] in R.
  apply IH. cbn [List.length] in Hf. lia.
Qed.

(** C9.  A first token that is a piece of one of the strings the parser
    tests with [in] passes for a card: ["AF"] and the empty token are
    stored as cards where an unknown card is to be refused, as ["X"] is. *)
Theorem parse_line_accepts_unknown_cards (f : bytes) :
  recognized "AF" = false /\
  recognized "" = false /\
  line_body ("AF x" ++ nl) f []
  = Ok (f, [("AF", Single (VTuple [IStr "x"]))])%string /\
  line_body nl f [] = Ok (f, [("", Single (VTuple []))])%string /\
  line_body (" x" ++ nl) f []
  = Ok (f, [("", Single (VTuple [IStr "x"]))])%string /\
  line_body ("X y" ++ nl) f []
  = Raise (ValueError (UnrecognizedCard "X y")).
Proof. repeat split. Qed.

(** [parse] is its fuelled loop: the branch for used-up fuel is never
    taken. *)
Lemma parse_unfold (blob : bytes) :
  line_loop (S (List.length (remove_clearsign blob)))
    (fst (BytesIO.readline (remove_clearsign blob)))
    (snd (BytesIO.readline (remove_clearsign blob))) []
  = Some (parse utf8_decode strptime_timegm py_int blob).
Proof.
  unfold parse.
  pose proof (readline_length (remove_clearsign blob)) as R.
  destruct (BytesIO.readline (remove_clearsign blob)) as [line f'].
  cbn [fst snd] in *.
  pose proof (parse_while_enough (S (List.length (remove_clearsign blob)))
                line f' []) as H.
  destruct (line_loop _ line f' []); [reflexivity|].
  exfalso. apply H; [lia | reflexivity].
Qed.

End Library.

End CardParser.

(** ** The repository lookup *)

Module Repository.

Section Lookup.

Variable NUMPY_AVAILABLE : bool.
Variable zlib_decompress : bytes -> result bytes.
Variable utf8_decode : bytes -> result string.
Variable strptime_timegm : string -> result Z.
Variable py_int : string -> result Z.
Variable chain_query : key_t -> list row.

Abbreviation lookup :=
  (artifact NUMPY_AVAILABLE zlib_decompress utf8_decode strptime_timegm
     py_int chain_query).
Abbreviation lookup_for := (artifact_for NUMPY_AVAILABLE zlib_decompress).
Abbreviation finish := (artifact_finish utf8_decode strptime_timegm py_int).

(** After a loop over at least one row that ran to its end, the three
    names are bound, [rid] and [uuid] to those of the last row. *)
Lemma artifact_for_bound (check : bool) (rows : list row) :
  forall st cache st' cache',
    rows <> [] ->
    lookup_for check rows st cache = (Ok st', cache') ->
    exists rows0 rid uuid content blob,
      rows = rows0 ++ [(rid, uuid, content)] /\
      st' = mkLocals (Some blob) (Some rid) (Some uuid).
Proof.
  induction rows as [|[[rid uuid] content] rows IH];
    intros st cache st' cache' Hne H; [contradiction|].
  cbn [artifact_for] in H.
  assert (Step : forall blob c,
             lookup_for check rows
               (mkLocals (Some blob) (Some rid) (Some uuid)) c
             = (Ok st', cache') ->
             exists rows0 rid0 uuid0 content0 blob0,
               (rid, uuid, content) :: rows
               = rows0 ++ [(rid0, uuid0, content0)] /\
               st' = mkLocals (Some blob0) (Some rid0) (Some uuid0)).
  { intros blob c Hc. destruct rows as [|r rows'].
    - cbn in Hc. injection Hc as <- _.
      exists [], rid, uuid, content, blob. split; reflexivity.
    - apply IH in Hc; [|discriminate].
      destruct Hc as (rows0 & rid0 & uuid0 & content0 & blob0 & -> & ->).
      exists ((rid, uuid, content) :: rows0), rid0, uuid0, content0, blob0.
      split; reflexivity. }
  destruct (LRUCache_contains rid cache).
  - destruct (LRUCache_getitem rid cache) as [[blob c]|e];
      [eapply Step; exact H | discriminate].
  - match type of H with
    | match ?m with _ => _ end = _ => destruct m as [blob|e]
    end; [|discriminate].
    destruct (LRUCache_setitem rid blob cache) as [c|e];
      [eapply Step; exact H | discriminate].
Qed.

(** An artifact that is returned holds a blob that is not empty. *)
Lemma artifact_finish_blob (type_ : option string) (st : locals)
  (a : artifact_t) :
  finish type_ st = Ok a -> artifact_blob a <> [].
Proof.
  unfold artifact_finish.
  destruct (truthy (l_blob st)) eqn:T; cbn [negb].
  - destruct (l_blob st) as [[|c blob]|]; try discriminate.
    destruct (local "rid" (l_rid st)); cbn [bind]; [|discriminate].
    destruct (local "uuid" (l_uuid st)); cbn [bind]; [|discriminate].
    assert (Plain : Ok (Artifact (c :: blob) a0 a1) = Ok a ->
                    artifact_blob a <> []).
    { intros H; injection H as <-. discriminate. }
    destruct type_ as [t|]; [|exact Plain].
    destruct (String.eqb t "structural") eqn:Es.
    + apply String.eqb_eq in Es. subst t.
      destruct (parse _ _ _ _); cbn [bind]; [|discriminate].
      intros H; injection H as <-. discriminate.
    + destruct (String.eqb t "file") eqn:Ef.
      * apply String.eqb_eq in Ef. subst t.
        intros H; injection H as <-. discriminate.
      * intros H. revert H.
        repeat match goal with
               | |- context [match ?x with _ => _ end] =>
                   match type of x with
                   | string => destruct x
                   | ascii => destruct x
                   | bool => destruct x
                   end
               end; try exact Plain;
          try (intros H; injection H as <-; discriminate);
          try (destruct (parse _ _ _ _); cbn [bind]; [|discriminate];
               intros H; injection H as <-; discriminate).
  - destruct (local "rid" (l_rid st)); discriminate.
Qed.

(** C2.  When the chain query has no row, the loop of [artifact] has no
    turn and [rid] is never bound: building the message of the
    [ValueError] that is meant to report the missing artifact raises
    [UnboundLocalError] in its place. *)
Theorem artifact_no_rows (check : bool) (cache : LRUCache) (key : key_t)
  (type_ : option string) :
  chain_query key = [] ->
  lookup check cache key type_ = (Raise (UnboundLocalError "rid"), cache).
Proof.
  intros H. unfold artifact. rewrite H. reflexivity.
Qed.

(** C10, as the code has it.  [artifact] returns no artifact with an empty
    blob: when the rows of the chain were all worked through and the buffer
    they leave is empty, the lookup raises the [ValueError] of the test
    [if not blob], with the row id of the last row in its message. *)
Theorem artifact_empty_blob (check : bool) (cache : LRUCache) (key : key_t)
  (type_ : option string) (st : locals) (cache' : LRUCache) :
  chain_query key <> [] ->
  lookup_for check (chain_query key) (mkLocals None None None) cache
  = (Ok st, cache') ->
  l_blob st = Some [] ->
  (exists rows0 rid uuid content,
      chain_query key = rows0 ++ [(rid, uuid, content)] /\
      lookup check cache key type_
      = (Raise (ValueError (CantFindArtifact rid)), cache')) /\
  (forall key' type' cache0 a cache1,
      lookup check cache0 key' type' = (Ok a, cache1) ->
      artifact_blob a <> []).
Proof.
  intros Hne Hfor Hblob. split.
  - destruct (artifact_for_bound _ _ _ _ _ _ Hne Hfor)
      as (rows0 & rid & uuid & content & blob & Hrows & Hst).
    exists rows0, rid, uuid, content. split; [exact Hrows|].
    unfold artifact. rewrite Hfor. cbn [bind]. f_equal.
    unfold artifact_finish. rewrite Hblob. cbn [truthy negb].
    rewrite Hst. reflexivity.
  - intros key' type' cache0 a cache1. unfold artifact.
    destruct (lookup_for check (chain_query key') _ cache0) as [[st0|e] c].
    + cbn [bind]. intros H. injection H as H _.
      eapply artifact_finish_blob; exact H.
    + cbn [bind]. discriminate.
Qed.

End Lookup.

Lemma artifact_no_rows_witness :
  artifact false stored no_decode no_number no_number no_rows
    false (LRUCache_init 64) (ByRid 1) None
  = (Raise (UnboundLocalError "rid"), LRUCache_init 64).
Proof.
  apply (artifact_no_rows false stored no_decode no_number no_number no_rows
           false (LRUCache_init 64) (ByRid 1) None).
  reflexivity.
Defined.

Lemma artifact_empty_blob_witness :
  (exists rows0 rid uuid content,
      one_empty_row (ByRid 1) = rows0 ++ [(rid, uuid, content)] /\
      artifact false stored no_decode no_number no_number one_empty_row
        false (LRUCache_init 64) (ByRid 1) None
      = (Raise (ValueError (CantFindArtifact rid)),
         mkLRUCache 64 [(1, [])])) /\
  (forall key' type' cache0 a cache1,
      artifact false stored no_decode no_number no_number one_empty_row
        false cache0 key' type' = (Ok a, cache1) ->
      artifact_blob a <> []).
Proof.
  apply (artifact_empty_blob false stored no_decode no_number no_number
           one_empty_row false (LRUCache_init 64) (ByRid 1) None
           (mkLocals (Some []) (Some 1) (Some "da39a3ee"%string))
           (mkLRUCache 64 [(1, [])])).
  - discriminate.
  - reflexivity.
  - reflexivity.
Defined.

(** C10, as the specification has it, fails: the error for a row whose
    blob is empty is not the one a missing row gets.  The empty blob ends
    in the [ValueError] of the test [if not blob]; with no row at all the
    same statement raises [UnboundLocalError] before the [ValueError] is
    built. *)
Lemma artifact_empty_blob_other_error :
  fst (artifact false stored no_decode no_number no_number one_empty_row
         false (LRUCache_init 64) (ByRid 1) None)
  = Raise (ValueError (CantFindArtifact 1)) /\
  fst (artifact false stored no_decode no_number no_number no_rows
         false (LRUCache_init 64) (ByRid 1) None)
  = Raise (UnboundLocalError "rid") /\
  fst (artifact false stored no_decode no_number no_number one_empty_row
         false (LRUCache_init 64) (ByRid 1) None)
  <> fst (artifact false stored no_decode no_number no_number no_rows
            false (LRUCache_init 64) (ByRid 1) None).
Proof.
  split; [reflexivity|]. split; [reflexivity|].
  vm_compute. discriminate.
Qed.

End Repository.

(** * Further properties *)

(** ** Runs of digits and the decoder *)

Module VarintRuns.

Lemma slice_from_app {A} (pre l : list A) :
  slice_from (pre ++ l) (len pre) = l.
Proof.
  rewrite Checksum.slice_from_nonneg by apply Checksum.len_nonneg.
  unfold len. rewrite Nat2Z.id.
  rewrite skipn_app, skipn_all, Nat.sub_diag. reflexivity.
Qed.

Lemma slice_from_length {A} (l : list A) (pos : Z) :
  0 <= pos <= len l -> len (slice_from l pos) = len l - pos.
Proof.
  intros H. rewrite Checksum.slice_from_nonneg by lia.
  unfold len in *. rewrite length_skipn. lia.
Qed.

(** The loop of the decoder over a run of digits: the counter moves past
    the run, the loop variable holds the index of its last digit, and the
    value is shifted and added to, digit by digit. *)
Lemma getint_for_run (ds : bytes) :
  forall tail i z v,
    forallb is_digit ds = true ->
    getint_for (ds ++ tail) i z v =
    getint_for tail (i + len ds)
      (match ds with [] => z | _ :: _ => Some (i + len ds - 1) end)
      (fold_left (fun v d => v * 64 + zvalue_of (byte_val d)) ds v).
Proof.
  induction ds as [|d ds IH]; intros tail i z v Hds.
  - cbn. rewrite Z.add_0_r. reflexivity.
  - cbn [forallb] in Hds. apply andb_prop in Hds. destruct Hds as [Hd Hds].
    unfold is_digit in Hd. apply Z.leb_le in Hd.
    cbn [app getint_for fold_left].
    destruct (zvalue_of (byte_val d) <? 0) eqn:E;
      [apply Z.ltb_lt in E; lia|].
    rewrite IH by exact Hds.
    rewrite Z.shiftl_mul_pow2 by lia. change (2 ^ 6) with 64.
    rewrite Checksum.len_cons.
    replace (i + 1 + len ds) with (i + (1 + len ds)) by lia.
    destruct ds as [|d' ds']; [|f_equal; f_equal; lia].
    cbn [len List.length Z.of_nat]. f_equal. f_equal. lia.
Qed.

(** X1.  The decoder reads the digits from its offset on, most significant
    first, and stops at the first byte that is no digit, which it leaves
    unread. *)
Theorem base64_getint_run_stopped (pre ds : bytes) (ch : byte)
  (rest : bytes) :
  forallb is_digit ds = true ->
  is_digit ch = false ->
  base64_getint (pre ++ ds ++ ch :: rest) (len pre)
  = Ok (run_value ds, len pre + len ds).
Proof.
  intros Hds Hch. unfold base64_getint.
  rewrite slice_from_app, getint_for_run by exact Hds.
  cbn [getint_for]. unfold is_digit in Hch. apply Z.leb_gt in Hch.
  destruct (zvalue_of (byte_val ch) <? 0) eqn:E;
    [|apply Z.ltb_ge in E; lia].
  rewrite Z.add_0_l. reflexivity.
Qed.

Lemma base64_getint_run_stopped_witness :
  base64_getint (b "x@" ++ b "1A" ++ x2c :: b "rest") (len (b "x@"))
  = Ok (run_value (b "1A"), len (b "x@") + len (b "1A")).
Proof.
  apply (base64_getint_run_stopped (b "x@") (b "1A") x2c (b "rest"));
    reflexivity.
Defined.

(** X2.  A run of digits that reaches the end of the buffer is read
    whole. *)
Theorem base64_getint_run_to_end (pre ds : bytes) :
  ds <> [] ->
  forallb is_digit ds = true ->
  base64_getint (pre ++ ds) (len pre)
  = Ok (run_value ds, len pre + len ds).
Proof.
  intros Hne Hds. unfold base64_getint.
  rewrite slice_from_app.
  rewrite <- (app_nil_r ds) at 1. rewrite getint_for_run by exact Hds.
  cbn [getint_for]. destruct ds as [|d ds']; [contradiction|].
  unfold run_value. f_equal. f_equal. lia.
Qed.

Lemma base64_getint_run_to_end_witness :
  base64_getint (b "5@" ++ b "~z") (len (b "5@"))
  = Ok (run_value (b "~z"), len (b "5@") + len (b "~z")).
Proof.
  apply (base64_getint_run_to_end (b "5@") (b "~z"));
    [discriminate | reflexivity].
Defined.

Lemma getint_for_exit (items : bytes) :
  forall i z v e zo v',
    getint_for items i z v = (e, zo, v') ->
    match e with
    | Broke => exists z', zo = Some z' /\ i <= z' < i + len items
    | Exhausted =>
        (items = [] /\ zo = z) \/
        (items <> [] /\ zo = Some (i + len items - 1))
    end.
Proof.
  induction items as [|ch items IH]; intros i z v e zo v' H;
    cbn [getint_for] in H.
  - injection H as <- <- <-. left. split; reflexivity.
  - rewrite Checksum.len_cons. pose proof (Checksum.len_nonneg items).
    destruct (zvalue_of (byte_val ch) <? 0).
    + injection H as <- <- <-. exists i. split; [reflexivity | lia].
    + apply IH in H. destruct e.
      * destruct H as [z' [-> Hz]]. exists z'. split; [reflexivity | lia].
      * right. split; [discriminate|].
        destruct H as [[-> ->]|[_ ->]].
        -- cbn [len List.length Z.of_nat]. f_equal. lia.
        -- f_equal. lia.
Qed.

(** X3.  From an offset that is not negative the decoder raises exactly when
    the offset is at or beyond the end of the buffer, and what it raises
    there is the [UnboundLocalError] on [z]. *)
Theorem base64_getint_raises_at_end (buf : bytes) (pos : Z) :
  0 <= pos ->
  is_ok (base64_getint buf pos) = (pos <? len buf) /\
  (len buf <= pos -> base64_getint buf pos = Raise (UnboundLocalError "z")).
Proof.
  intros Hpos. split; [|apply Varint.base64_getint_beyond].
  destruct (pos <? len buf) eqn:E.
  - apply Z.ltb_lt in E. unfold base64_getint.
    pose proof (slice_from_length buf pos ltac:(lia)) as L.
    destruct (getint_for (slice_from buf pos) 0 None 0) as [[e zo] v] eqn:G.
    apply getint_for_exit in G. destruct e.
    + destruct G as [z' [-> _]]. reflexivity.
    + destruct G as [[G _]|[_ ->]]; [|reflexivity].
      rewrite G in L. cbn in L. lia.
  - apply Z.ltb_ge in E.
    rewrite Varint.base64_getint_beyond by exact E. reflexivity.
Qed.

Lemma base64_getint_raises_at_end_witness :
  is_ok (base64_getint (b "12") 2) = (2 <? len (b "12")) /\
  base64_getint (b "12") 2 = Raise (UnboundLocalError "z").
Proof.
  split.
  - apply (base64_getint_raises_at_end (b "12") 2). lia.
  - apply (base64_getint_raises_at_end (b "12") 2); [lia|].
    vm_compute. discriminate.
Defined.

(** What the decoder returns lies inside the buffer: the value is not
    negative and the new offset is between the old one and the end. *)
Theorem base64_getint_inside (buf : bytes) (pos v pos' : Z) :
  0 <= pos ->
  base64_getint buf pos = Ok (v, pos') ->
  0 <= v /\ pos <= pos' <= len buf.
Proof.
  intros Hpos H.
  destruct (DeltaDecoder.base64_getint_bounds buf pos v pos' H) as [Hv Hle].
  split; [exact Hv|]. split; [exact Hle|].
  destruct (Z_lt_ge_dec pos (len buf)) as [Hlt|Hge].
  - unfold base64_getint in H.
    pose proof (slice_from_length buf pos ltac:(lia)) as L.
    destruct (getint_for (slice_from buf pos) 0 None 0) as [[e zo] v0] eqn:G.
    apply getint_for_exit in G. destruct e.
    + destruct G as [z' [-> Hz]]. injection H as _ <-. lia.
    + destruct G as [[_ ->]|[_ ->]]; [discriminate|].
      injection H as _ <-. lia.
  - rewrite Varint.base64_getint_beyond in H by lia. discriminate.
Qed.

Lemma base64_getint_inside_witness :
  0 <= 64 /\ 0 <= 2 <= len (b "10").
Proof.
  apply (base64_getint_inside (b "10") 0 64 2); [lia | reflexivity].
Defined.

End VarintRuns.

(** ** The encoder *)

Module VarintEncode.

Lemma b_cons (c : ascii) (s : string) :
  b (String c s) = byte_of_ascii c :: b s.
Proof. reflexivity. Qed.

Lemma zdigit_value (i : Z) :
  0 <= i < 64 ->
  zvalue_of (byte_val (byte_of_ascii (zdigit i))) = i /\
  in_alphabet (byte_val (byte_of_ascii (zdigit i))) = true.
Proof.
  intros Hi.
  assert (Hn : (Z.to_nat i < 64)%nat) by lia.
  rewrite <- (Z2Nat.id i) by lia.
  revert Hn. generalize (Z.to_nat i) as n. intros n Hn.
  do 64 (destruct n as [|n]; [split; vm_compute; reflexivity|]).
  lia.
Qed.

Lemma split_low_bits (v : Z) :
  0 <= v -> v = Z.shiftr v 6 * 64 + Z.land v 0x3f.
Proof.
  intros Hv. rewrite Z.shiftr_div_pow2 by lia.
  change 0x3f with (Z.ones 6). rewrite Z.land_ones by lia.
  change (2 ^ 6) with 64.
  pose proof (Z.div_mod v 64 ltac:(lia)). lia.
Qed.

Lemma run_value_snoc (ds : bytes) (d : byte) :
  run_value (ds ++ [d]) = run_value ds * 64 + zvalue_of (byte_val d).
Proof. unfold run_value. rewrite fold_left_app. reflexivity. Qed.

(** The symbols of the encoder, read from the last one written to the
    first, are digits whose value in base 64 is the number encoded. *)
Lemma varint_digits (v : Z) :
  0 <= v ->
  varint v <> [] /\
  forallb is_digit (varint v) = true /\
  Forall (fun d => in_alphabet (byte_val d) = true) (varint v) /\
  run_value (varint v) = v.
Proof.
  revert v. apply (Wf_Z.Zlt_0_ind (fun v => _)).
  intros v IH Hv.
  destruct (Z.eq_dec v 0) as [->|Hnz].
  { repeat split; try discriminate.
    repeat constructor. }
  unfold varint. rewrite Varint.base64_putint_step by lia.
  rewrite b_cons. cbn [rev].
  pose proof (Varint.mask_in_range v) as Hm.
  destruct (zdigit_value _ Hm) as [Hval Halpha].
  assert (Hd : is_digit (byte_of_ascii (zdigit (Z.land v 63))) = true).
  { unfold is_digit. rewrite Hval. apply Z.leb_le. lia. }
  pose proof (split_low_bits v Hv) as Hsplit.
  destruct (Z.shiftr v 6 =? 0) eqn:E.
  - apply Z.eqb_eq in E. cbn [b list_byte_of_string list_ascii_of_string
                               map rev app].
    repeat split.
    + discriminate.
    + cbn [forallb]. rewrite Hd. reflexivity.
    + repeat constructor. exact Halpha.
    + unfold run_value. cbn [fold_left]. rewrite Hval. lia.
  - apply Z.eqb_neq in E.
    assert (Hs : 0 <= Z.shiftr v 6) by (apply Z.shiftr_nonneg; lia).
    assert (Hlt : Z.shiftr v 6 < v).
    { pose proof (proj1 Hm). lia. }
    destruct (IH (Z.shiftr v 6) ltac:(lia)) as (Hne & Hall & Hal & Hrun).
    unfold varint in *. repeat split.
    + destruct (rev _); discriminate.
    + rewrite forallb_app, Hall. cbn [forallb]. rewrite Hd. reflexivity.
    + apply Forall_app. split; [exact Hal|]. repeat constructor.
      exact Halpha.
    + rewrite run_value_snoc, Hrun, Hval. lia.
Qed.

(** X4.  The round trip that the code does keep: the decoder returns [v], and
    the length of the encoding, from the symbols of the encoder taken in
    reverse. *)
Theorem base64_getint_of_reversed_putint (v : Z) :
  0 <= v ->
  base64_getint (rev (b (base64_putint v))) 0
  = Ok (v, len (b (base64_putint v))).
Proof.
  intros Hv.
  destruct (varint_digits v Hv) as (Hne & Hall & _ & Hrun).
  unfold varint in *.
  pose proof (VarintRuns.base64_getint_run_to_end [] _ Hne Hall) as H.
  cbn [app len List.length Z.of_nat] in H. rewrite H, Hrun.
  unfold len. rewrite length_rev. reflexivity.
Qed.

Lemma base64_getint_of_reversed_putint_witness :
  base64_getint (rev (b (base64_putint 1000000))) 0
  = Ok (1000000, len (b (base64_putint 1000000))).
Proof.
  apply (base64_getint_of_reversed_putint 1000000). lia.
Defined.

(** For a number that is not negative the encoder writes at least one
    symbol, and only symbols of the alphabet. *)
Theorem base64_putint_symbols (v : Z) :
  0 <= v ->
  base64_putint v <> ""%string /\
  Forall (fun d => in_alphabet (byte_val d) = true) (b (base64_putint v)).
Proof.
  intros Hv.
  destruct (varint_digits v Hv) as (Hne & _ & Hal & _).
  unfold varint in *. split.
  - intros E. rewrite E in Hne. apply Hne. reflexivity.
  - rewrite <- (rev_involutive (b (base64_putint v))).
    apply Forall_rev. exact Hal.
Qed.

Lemma base64_putint_symbols_witness :
  base64_putint 4095 <> ""%string /\
  Forall (fun d => in_alphabet (byte_val d) = true) (b (base64_putint 4095)).
Proof.
  apply (base64_putint_symbols 4095). lia.
Defined.

(** For a negative number the encoder returns the empty string: the test
    [not v] fails and the loop has no turn. *)
Theorem base64_putint_negative (v : Z) :
  v < 0 -> base64_putint v = ""%string.
Proof.
  intros Hv. unfold base64_putint.
  destruct (v =? 0) eqn:E; [apply Z.eqb_eq in E; lia|].
  apply Varint.putint_while_done. lia.
Qed.

Lemma base64_putint_negative_witness : base64_putint (-5) = ""%string.
Proof.
  apply (base64_putint_negative (-5)). lia.
Defined.

End VarintEncode.

(** ** More on the checksum *)

Module ChecksumMore.

(** X6.  The definition with numpy and the one without return the same number,
    below 2^32, and neither ever raises. *)
Theorem delta_checksum_definitions_agree (blob : bytes) :
  delta_checksum true blob = delta_checksum false blob /\
  exists sum, delta_checksum false blob = Ok sum /\ 0 <= sum < 2 ^ 32.
Proof.
  rewrite !Checksum.delta_checksum_word_sum. split; [reflexivity|].
  exists (word_sum blob). split; [reflexivity|].
  apply Checksum.word_sum_range.
Qed.

Lemma word_sum_all_zero (zs : bytes) :
  Forall (eq x00) zs -> word_sum zs = 0.
Proof.
  induction zs as [|z0|z0 z1|z0 z1 z2|z0 z1 z2 z3 rest IH]
    using Checksum.bytes_ind4; intros H;
    repeat match goal with
           | H : Forall _ (_ :: _) |- _ => inversion_clear H; subst
           end;
    try reflexivity.
  rewrite Checksum.word_sum_cons4, IH by assumption. reflexivity.
Qed.

Lemma word_sum_short (b0 b1 b2 b3 : byte) (rest : bytes) :
  word_sum rest = 0 ->
  word_sum (b0 :: b1 :: b2 :: b3 :: rest)
  = (byte_val b0 * 16777216 + byte_val b1 * 65536 + byte_val b2 * 256
     + byte_val b3) mod uint32.
Proof.
  intros H. rewrite Checksum.word_sum_cons4, H, Z.add_0_r. reflexivity.
Qed.

Lemma word_sum_zero_tail (blob : bytes) :
  forall zs, Forall (eq x00) zs -> word_sum (blob ++ zs) = word_sum blob.
Proof.
  induction blob as [|b0|b0 b1|b0 b1 b2|b0 b1 b2 b3 rest IH]
    using Checksum.bytes_ind4; intros zs H.
  - apply word_sum_all_zero. exact H.
  - destruct zs as [|z0 [|z1 [|z2 zs]]];
      repeat match goal with
             | H : Forall _ (_ :: _) |- _ => inversion_clear H; subst
             end;
      cbn [app]; [reflexivity | | |].
    + cbn [word_sum]. rewrite Checksum.byte_val_x00. f_equal. lia.
    + cbn [word_sum]. rewrite Checksum.byte_val_x00. f_equal. lia.
    + rewrite word_sum_short by (apply word_sum_all_zero; assumption).
      cbn [word_sum]. rewrite Checksum.byte_val_x00. f_equal. lia.
  - destruct zs as [|z0 [|z1 zs]];
      repeat match goal with
             | H : Forall _ (_ :: _) |- _ => inversion_clear H; subst
             end;
      cbn [app]; [reflexivity | |].
    + cbn [word_sum]. rewrite Checksum.byte_val_x00. f_equal. lia.
    + rewrite word_sum_short by (apply word_sum_all_zero; assumption).
      cbn [word_sum]. rewrite Checksum.byte_val_x00. f_equal. lia.
  - destruct zs as [|z0 zs];
      repeat match goal with
             | H : Forall _ (_ :: _) |- _ => inversion_clear H; subst
             end;
      cbn [app]; [reflexivity|].
    rewrite word_sum_short by (apply word_sum_all_zero; assumption).
    cbn [word_sum]. rewrite Checksum.byte_val_x00. f_equal. lia.
  - change ((b0 :: b1 :: b2 :: b3 :: rest) ++ zs)
      with (b0 :: b1 :: b2 :: b3 :: (rest ++ zs)).
    rewrite !Checksum.word_sum_cons4, IH by exact H. reflexivity.
Qed.

(** X7.  Zero bytes at the end of a buffer do not show in its checksum, however
    many there are. *)
Theorem delta_checksum_trailing_zeros (np : bool) (blob : bytes) (n : Z) :
  delta_checksum np (blob ++ zeros n) = delta_checksum np blob.
Proof.
  rewrite !Checksum.delta_checksum_word_sum. f_equal.
  apply word_sum_zero_tail. unfold zeros.
  apply Forall_forall. intros x Hx. apply repeat_spec in Hx.
  symmetry; exact Hx.
Qed.

End ChecksumMore.

(** ** The instructions of a delta *)

Module DeltaInstructions.

Lemma index_app (pre : bytes) (x : byte) (rest : bytes) :
  index (pre ++ x :: rest) (len pre) = Ok (byte_val x).
Proof.
  unfold index. pose proof (Checksum.len_nonneg pre) as Hp.
  destruct (len pre <? 0) eqn:E; [apply Z.ltb_lt in E; lia|].
  rewrite E. cbn [orb].
  rewrite Checksum.len_app, Checksum.len_cons.
  pose proof (Checksum.len_nonneg rest) as Hr.
  destruct (len pre + (1 + len rest) <=? len pre) eqn:E1;
    [apply Z.leb_le in E1; lia|].
  unfold len. rewrite Nat2Z.id, nth_error_app2, Nat.sub_diag by lia.
  reflexivity.
Qed.

Lemma slice_whole {A} (l : list A) : slice l 0 (0 + len l) = l.
Proof.
  pose proof (Checksum.len_nonneg l).
  rewrite Checksum.slice_nonneg by lia. cbn [Z.to_nat skipn].
  replace (Z.to_nat (0 + len l - 0)) with (List.length l)
    by (unfold len; lia).
  apply firstn_all.
Qed.

Lemma slice_app_mid {A} (pre mid rest : list A) :
  slice (pre ++ mid ++ rest) (len pre) (len pre + len mid) = mid.
Proof.
  pose proof (Checksum.len_nonneg pre). pose proof (Checksum.len_nonneg mid).
  rewrite Checksum.slice_nonneg by lia.
  replace (Z.to_nat (len pre + len mid - len pre)) with (List.length mid)
    by (unfold len; lia).
  unfold len. rewrite Nat2Z.id, skipn_app, skipn_all, Nat.sub_diag.
  cbn [skipn app]. rewrite firstn_app, firstn_all, Nat.sub_diag.
  cbn [firstn]. apply app_nil_r.
Qed.

(** From a position past everything the bytes that are left are none. *)
Lemma slice_app_tail {A} (pre rest : list A) (n : Z) :
  len rest <= n ->
  slice (pre ++ rest) (len pre) (len pre + n) = rest.
Proof.
  intros Hn.
  pose proof (Checksum.len_nonneg pre). pose proof (Checksum.len_nonneg rest).
  rewrite Checksum.slice_nonneg by lia.
  unfold len in *. rewrite Nat2Z.id, skipn_app, skipn_all, Nat.sub_diag.
  cbn [skipn app]. apply firstn_all2. lia.
Qed.

Section Body.

Variables (blob pre num : bytes).
Hypothesis Hnum : forallb is_digit num = true.

(** The number in front of an instruction, and the byte after it. *)
Lemma instruction_head (op : byte) (rest : bytes) :
  is_digit op = false ->
  base64_getint (pre ++ num ++ op :: rest) (len pre)
  = Ok (run_value num, len pre + len num) /\
  index (pre ++ num ++ op :: rest) (len pre + len num) = Ok (byte_val op).
Proof.
  intros Hop. split.
  - apply VarintRuns.base64_getint_run_stopped; assumption.
  - rewrite app_assoc, <- Checksum.len_app. apply index_app.
Qed.

(** X8.  COPY: [num @ off sep].  The bytes [blob[off:off+num]] are appended;
    the byte after the offset is passed over whatever it is, as long as it
    ends the digits. *)
Theorem delta_body_copy (off : bytes) (sep : byte) (rest newblob : bytes) :
  forallb is_digit off = true ->
  is_digit sep = false ->
  delta_body blob (pre ++ num ++ x40 :: off ++ sep :: rest) (len pre) newblob
  = Ok (Continue (len pre + len num + 1 + len off + 1)
          (newblob
             ++ slice blob (run_value off) (run_value off + run_value num))).
Proof.
  intros Hoff Hsep. unfold delta_body.
  destruct (instruction_head x40 (off ++ sep :: rest) eq_refl) as [-> Hop].
  cbn [bind]. rewrite Hop. cbn [bind].
  change (byte_val x40 =? 64) with true. cbv iota.
  replace (pre ++ num ++ x40 :: off ++ sep :: rest)
    with ((pre ++ num ++ [x40]) ++ off ++ sep :: rest)
    by (rewrite <- !app_assoc; reflexivity).
  replace (len pre + len num + 1) with (len (pre ++ num ++ [x40]))
    by (rewrite !Checksum.len_app; cbn [len List.length Z.of_nat]; lia).
  rewrite VarintRuns.base64_getint_run_stopped by assumption.
  reflexivity.
Qed.

(** X9.  INSERT: [num : payload].  The [num] bytes after the colon are
    appended and passed over. *)
Theorem delta_body_insert (payload rest newblob : bytes) :
  run_value num = len payload ->
  delta_body blob (pre ++ num ++ x3a :: payload ++ rest) (len pre) newblob
  = Ok (Continue (len pre + len num + 1 + len payload) (newblob ++ payload)).
Proof.
  intros Hlen. unfold delta_body.
  destruct (instruction_head x3a (payload ++ rest) eq_refl) as [-> Hop].
  cbn [bind]. rewrite Hop. cbn [bind].
  change (byte_val x3a =? 64) with false.
  change (byte_val x3a =? 58) with true. cbv iota.
  rewrite Hlen. f_equal. f_equal. f_equal.
  replace (pre ++ num ++ x3a :: payload ++ rest)
    with ((pre ++ num ++ [x3a]) ++ payload ++ rest)
    by (rewrite <- !app_assoc; reflexivity).
  replace (len pre + len num + 1) with (len (pre ++ num ++ [x3a]))
    by (rewrite !Checksum.len_app; cbn [len List.length Z.of_nat]; lia).
  apply slice_app_mid.
Qed.

(** END: [num ;] leaves the loop with [num] as the declared checksum. *)
Theorem delta_body_end (rest newblob : bytes) :
  delta_body blob (pre ++ num ++ x3b :: rest) (len pre) newblob
  = Ok (Break (run_value num)).
Proof.
  unfold delta_body.
  destruct (instruction_head x3b rest eq_refl) as [-> Hop].
  cbn [bind]. rewrite Hop. reflexivity.
Qed.

(** X10.  Any other byte after the number is refused. *)
Theorem delta_body_unknown (op : byte) (rest newblob : bytes) :
  is_digit op = false ->
  op <> x40 -> op <> x3a -> op <> x3b ->
  delta_body blob (pre ++ num ++ op :: rest) (len pre) newblob
  = Raise (ValueError InvalidDeltaEncoding).
Proof.
  intros Hop H1 H2 H3. unfold delta_body.
  destruct (instruction_head op rest Hop) as [-> Hi].
  cbn [bind]. rewrite Hi. cbn [bind].
  destruct op; try reflexivity; contradiction.
Qed.

(** An INSERT that asks for at least as many bytes as the delta has left
    takes what is there and ends the decoding with an error: no END can
    follow. *)
Theorem delta_while_insert_truncated (fuel : nat) (rest newblob : bytes) :
  len rest <= run_value num ->
  delta_while (S (S fuel)) blob (pre ++ num ++ x3a :: rest) (len pre) newblob
  = Some (Raise (ValueError InvalidDeltaEncoding)).
Proof.
  intros Hlen. cbn [delta_while].
  pose proof (Checksum.len_nonneg pre). pose proof (Checksum.len_nonneg num).
  pose proof (Checksum.len_nonneg rest).
  assert (Hl : len (pre ++ num ++ x3a :: rest)
               = len pre + len num + 1 + len rest).
  { rewrite !Checksum.len_app, Checksum.len_cons. lia. }
  rewrite Hl.
  destruct (len pre <? len pre + len num + 1 + len rest) eqn:E;
    [|apply Z.ltb_ge in E; lia].
  unfold delta_body.
  destruct (instruction_head x3a rest eq_refl) as [-> Hop].
  cbn [bind]. rewrite Hop. cbn [bind].
  change (byte_val x3a =? 64) with false.
  change (byte_val x3a =? 58) with true. cbv iota.
  destruct (len pre + len num + 1 + run_value num
            <? len pre + len num + 1 + len rest) eqn:E1;
    [apply Z.ltb_lt in E1; lia | reflexivity].
Qed.

End Body.

Lemma delta_body_copy_witness :
  delta_body (b "Hello, World!") (b "D;" ++ b "5" ++ x40 :: b "7" ++ x2c :: b "0;")
    (len (b "D;")) (b "out")
  = Ok (Continue (len (b "D;") + len (b "5") + 1 + len (b "7") + 1)
          (b "out" ++ slice (b "Hello, World!") (run_value (b "7"))
                        (run_value (b "7") + run_value (b "5")))).
Proof.
  apply (delta_body_copy (b "Hello, World!") (b "D;") (b "5") eq_refl
           (b "7") x2c (b "0;") (b "out")); reflexivity.
Defined.

Lemma delta_body_insert_witness :
  delta_body [] (b "3;" ++ b "3" ++ x3a :: b "abc" ++ b "0;")
    (len (b "3;")) []
  = Ok (Continue (len (b "3;") + len (b "3") + 1 + len (b "abc"))
          ([] ++ b "abc")).
Proof.
  apply (delta_body_insert [] (b "3;") (b "3") eq_refl (b "abc") (b "0;") []).
  reflexivity.
Defined.

Lemma delta_body_end_witness :
  delta_body [] (b "3;" ++ b "1A" ++ x3b :: []) (len (b "3;")) (b "abc")
  = Ok (Break (run_value (b "1A"))).
Proof.
  apply (delta_body_end [] (b "3;") (b "1A") eq_refl [] (b "abc")).
Defined.

Lemma delta_body_unknown_witness :
  delta_body [] (b "3;" ++ b "2" ++ x23 :: b "ab") (len (b "3;")) []
  = Raise (ValueError InvalidDeltaEncoding).
Proof.
  apply (delta_body_unknown [] (b "3;") (b "2") eq_refl x23 (b "ab") []);
    [reflexivity | discriminate | discriminate | discriminate].
Defined.

Lemma delta_while_insert_truncated_witness :
  delta_while 2 [] (b "9;" ++ b "9" ++ x3a :: b "abc") (len (b "9;")) []
  = Some (Raise (ValueError InvalidDeltaEncoding)).
Proof.
  apply (delta_while_insert_truncated [] (b "9;") (b "9") eq_refl 0
           (b "abc") []).
  vm_compute. discriminate.
Defined.

End DeltaInstructions.

(** ** Whole deltas *)

Module DeltaRuns.

(** More fuel does not change what the loop returns. *)
Lemma delta_while_more (fuel : nat) :
  forall blob delta pos newblob r,
    delta_while fuel blob delta pos newblob = Some r ->
    forall k, delta_while (k + fuel) blob delta pos newblob = Some r.
Proof.
  induction fuel as [|fuel IH]; intros blob delta pos newblob r H k;
    [discriminate|].
  rewrite Nat.add_succ_r. cbn [delta_while] in *.
  destruct (pos <? len delta); [|exact H].
  destruct (delta_body blob delta pos newblob) as [[pos' nb'|c]|e];
    try exact H.
  apply IH. exact H.
Qed.

Lemma delta_while_agree (f1 f2 : nat) blob delta pos newblob r1 r2 :
  delta_while f1 blob delta pos newblob = Some r1 ->
  delta_while f2 blob delta pos newblob = Some r2 ->
  r1 = r2.
Proof.
  intros H1 H2.
  apply delta_while_more with (k := f2) in H1.
  apply delta_while_more with (k := f1) in H2.
  rewrite Nat.add_comm in H2. rewrite H1 in H2. injection H2 as ->.
  reflexivity.
Qed.

(** Whatever fuel lets the decoding come to an end gives the result of
    [delta_apply]. *)
Lemma delta_apply_by_fuel (np : bool) (fuel : nat) (blob delta : bytes)
  (check : bool) (r : result bytes) :
  delta_apply_fuel np fuel blob delta check = Some r ->
  delta_apply np blob delta check = r.
Proof.
  intros H.
  pose proof (DeltaDecoder.delta_apply_unfold np blob delta check) as U.
  unfold delta_apply_fuel in *.
  destruct (base64_getint delta 0) as [[targetsize pos]|e];
    [|congruence].
  destruct (delta_while fuel blob delta (pos + 1) []) as [r1|] eqn:E1;
    [|discriminate].
  destruct (delta_while (S (List.length delta)) blob delta (pos + 1) [])
    as [r2|] eqn:E2; [|discriminate].
  rewrite (delta_while_agree _ _ _ _ _ _ _ _ E1 E2) in H. congruence.
Qed.

Lemma index_semicolon (delta : bytes) (pos : Z) :
  index delta pos = Ok 59 -> In x3b delta.
Proof.
  unfold index.
  destruct (_ || _); [discriminate|].
  destruct (nth_error delta _) as [x|] eqn:E; [|discriminate].
  intros H. apply nth_error_In in E.
  destruct x; try (vm_compute in H; discriminate). exact E.
Qed.

Lemma delta_body_break (blob delta : bytes) (pos : Z) (newblob : bytes)
  (c : Z) :
  delta_body blob delta pos newblob = Ok (Break c) -> In x3b delta.
Proof.
  unfold delta_body.
  destruct (base64_getint delta pos) as [[num p1]|e]; cbn [bind];
    [|discriminate].
  destruct (index delta p1) as [op|e] eqn:E; cbn [bind]; [|discriminate].
  destruct (op =? 64).
  { destruct (base64_getint delta (p1 + 1)) as [[off p2]|e]; cbn [bind];
      discriminate. }
  destruct (op =? 58); [discriminate|].
  destruct (op =? 59) eqn:E59; [|discriminate].
  apply Z.eqb_eq in E59. subst op. intros _.
  eapply index_semicolon. exact E.
Qed.

Lemma delta_while_break (fuel : nat) :
  forall blob delta pos newblob c buf,
    delta_while fuel blob delta pos newblob = Some (Ok (c, buf)) ->
    In x3b delta.
Proof.
  induction fuel as [|fuel IH]; intros blob delta pos newblob c buf H;
    [discriminate|].
  cbn [delta_while] in H.
  destruct (pos <? len delta); [|discriminate].
  destruct (delta_body blob delta pos newblob) as [[pos' nb'|c']|e] eqn:B;
    try discriminate.
  - eapply IH. exact H.
  - eapply delta_body_break. exact B.
Qed.

(** X12.  A delta without the byte [';'] is never decoded with success. *)
Theorem delta_apply_needs_end (np : bool) (blob delta : bytes)
  (check : bool) (out : bytes) :
  delta_apply np blob delta check = Ok out -> In x3b delta.
Proof.
  intros H.
  pose proof (DeltaDecoder.delta_apply_unfold np blob delta check) as U.
  rewrite H in U. unfold delta_apply_fuel in U.
  destruct (base64_getint delta 0) as [[targetsize pos]|e]; [|discriminate].
  destruct (delta_while _ _ _ _ _) as [[[c buf]|e]|] eqn:W;
    try discriminate.
  eapply delta_while_break. exact W.
Qed.

Lemma delta_apply_needs_end_witness : In x3b greedy_delta.
Proof.
  apply (delta_apply_needs_end false short_source greedy_delta false
           short_source).
  reflexivity.
Defined.

(** X13.  Checking changes one thing only: a decoding that succeeds without it
    may end in a data mismatch with it. *)
Theorem delta_apply_check (np : bool) (blob delta : bytes) :
  delta_apply np blob delta true = delta_apply np blob delta false \/
  (exists out, delta_apply np blob delta false = Ok out /\
               delta_apply np blob delta true
               = Raise (ValueError DataMismatch)).
Proof.
  pose proof (DeltaDecoder.delta_apply_unfold np blob delta true) as Ut.
  pose proof (DeltaDecoder.delta_apply_unfold np blob delta false) as Uf.
  unfold delta_apply_fuel in *.
  destruct (base64_getint delta 0) as [[targetsize pos]|e];
    [|left; congruence].
  destruct (delta_while _ _ _ _ _) as [[[c buf]|e]|];
    [| left; congruence | discriminate].
  injection Ut as Ut. injection Uf as Uf. rewrite <- Ut, <- Uf.
  unfold delta_finish.
  destruct (negb (targetsize =? len buf)); [left; reflexivity|].
  rewrite Checksum.delta_checksum_word_sum. cbn [bind].
  destruct (negb (c =? word_sum buf)); [right | left; reflexivity].
  exists buf. split; reflexivity.
Qed.

End DeltaRuns.

(** ** Deltas of one instruction *)

Module DeltaWhole.

Lemma varint_run (v : Z) :
  0 <= v -> forallb is_digit (varint v) = true /\ run_value (varint v) = v.
Proof.
  intros Hv. destruct (VarintEncode.varint_digits v Hv) as (_ & H1 & _ & H2).
  split; assumption.
Qed.

(** X14.  The delta that copies the whole source gives the source back; with
    checking, it does so exactly when it declares the checksum of the
    source. *)
Theorem delta_apply_identity (np : bool) (s : bytes) (c : Z) (check : bool) :
  0 <= c ->
  delta_apply np s (identity_delta (len s) c) check
  = if check && negb (c =? word_sum s)
    then Raise (ValueError DataMismatch) else Ok s.
Proof.
  intros Hc. apply (DeltaRuns.delta_apply_by_fuel np 2).
  destruct (varint_run (len s) (Checksum.len_nonneg s)) as [HA HvA].
  destruct (varint_run c Hc) as [HC HvC].
  unfold identity_delta.
  set (A := varint (len s)) in *. set (C := varint c) in *.
  pose proof (Checksum.len_nonneg A) as HlA.
  pose proof (Checksum.len_nonneg C) as HlC.
  cbn [app b list_byte_of_string list_ascii_of_string map].
  change (byte_of_ascii "0") with x30.
  set (D := A ++ x0a :: A ++ x40 :: x30 :: x2c :: C ++ [x3b]).
  assert (HlD : len D = len A + 1 + len A + 1 + 1 + 1 + len C + 1).
  { unfold D.
    repeat (rewrite Checksum.len_app || rewrite Checksum.len_cons).
    change (len (@nil byte)) with 0. lia. }
  assert (G0 : base64_getint D 0 = Ok (len s, len A)).
  { pose proof (VarintRuns.base64_getint_run_stopped [] A x0a
                  (A ++ x40 :: x30 :: x2c :: C ++ [x3b]) HA eq_refl) as G.
    rewrite HvA in G. exact G. }
  assert (B1 : delta_body s D (len A + 1) []
               = Ok (Continue (len A + 1 + len A + 1 + 1 + 1) s)).
  { pose proof (DeltaInstructions.delta_body_copy s (A ++ [x0a]) A HA
                  [x30] x2c (C ++ [x3b]) [] eq_refl eq_refl) as B.
    rewrite <- app_assoc in B. cbn [app] in B.
    rewrite Checksum.len_app in B.
    change (len [x0a]) with 1 in B. change (len [x30]) with 1 in B.
    change (run_value [x30]) with 0 in B.
    rewrite HvA, DeltaInstructions.slice_whole in B. exact B. }
  assert (B2 : forall nb, delta_body s D (len A + 1 + len A + 1 + 1 + 1) nb
                          = Ok (Break c)).
  { intros nb.
    pose proof (DeltaInstructions.delta_body_end s
                  (A ++ x0a :: A ++ [x40; x30; x2c]) C HC [] nb) as B.
    rewrite HvC in B.
    replace ((A ++ x0a :: A ++ [x40; x30; x2c]) ++ C ++ [x3b]) with D in B.
    2:{ unfold D. rewrite <- app_assoc. cbn [app].
        rewrite <- app_assoc. reflexivity. }
    rewrite Checksum.len_app, Checksum.len_cons, Checksum.len_app in B.
    change (len [x40; x30; x2c]) with 3 in B.
    replace (len A + (1 + (len A + 3))) with (len A + 1 + len A + 1 + 1 + 1)
      in B by lia.
    exact B. }
  unfold delta_apply_fuel. rewrite G0. cbn [delta_while].
  destruct (len A + 1 <? len D) eqn:E1; [|apply Z.ltb_ge in E1; lia].
  rewrite B1.
  destruct (len A + 1 + len A + 1 + 1 + 1 <? len D) eqn:E2;
    [|apply Z.ltb_ge in E2; lia].
  rewrite B2. f_equal. unfold delta_finish.
  rewrite Z.eqb_refl. cbn [negb].
  rewrite Checksum.delta_checksum_word_sum. cbn [bind].
  destruct check; cbn [andb]; [|reflexivity].
  destruct (negb (c =? word_sum s)); reflexivity.
Qed.

Lemma delta_apply_identity_witness :
  delta_apply false (b "Hello, World!")
    (identity_delta (len (b "Hello, World!")) 7) false
  = if false && negb (7 =? word_sum (b "Hello, World!"))
    then Raise (ValueError DataMismatch) else Ok (b "Hello, World!").
Proof.
  apply (delta_apply_identity false (b "Hello, World!") 7 false). lia.
Defined.

(** X15.  The delta that inserts a payload gives the payload, whatever the
    source is. *)
Theorem delta_apply_literal (np : bool) (s payload : bytes) (c : Z)
  (check : bool) :
  0 <= c ->
  delta_apply np s (literal_delta payload c) check
  = if check && negb (c =? word_sum payload)
    then Raise (ValueError DataMismatch) else Ok payload.
Proof.
  intros Hc. apply (DeltaRuns.delta_apply_by_fuel np 2).
  destruct (varint_run (len payload) (Checksum.len_nonneg payload))
    as [HA HvA].
  destruct (varint_run c Hc) as [HC HvC].
  unfold literal_delta.
  set (A := varint (len payload)) in *. set (C := varint c) in *.
  pose proof (Checksum.len_nonneg A) as HlA.
  pose proof (Checksum.len_nonneg C) as HlC.
  pose proof (Checksum.len_nonneg payload) as HlP.
  cbn [app].
  set (D := A ++ x0a :: A ++ x3a :: payload ++ C ++ [x3b]).
  assert (HlD : len D = len A + 1 + len A + 1 + len payload + len C + 1).
  { unfold D.
    repeat (rewrite Checksum.len_app || rewrite Checksum.len_cons).
    change (len (@nil byte)) with 0. lia. }
  assert (G0 : base64_getint D 0 = Ok (len payload, len A)).
  { pose proof (VarintRuns.base64_getint_run_stopped [] A x0a
                  (A ++ x3a :: payload ++ C ++ [x3b]) HA eq_refl) as G.
    rewrite HvA in G. exact G. }
  assert (B1 : delta_body s D (len A + 1) []
               = Ok (Continue (len A + 1 + len A + 1 + len payload) payload)).
  { pose proof (DeltaInstructions.delta_body_insert s (A ++ [x0a]) A HA
                  payload (C ++ [x3b]) [] HvA) as B.
    rewrite <- app_assoc in B. cbn [app] in B.
    rewrite Checksum.len_app in B. change (len [x0a]) with 1 in B.
    exact B. }
  assert (B2 : forall nb,
             delta_body s D (len A + 1 + len A + 1 + len payload) nb
             = Ok (Break c)).
  { intros nb.
    pose proof (DeltaInstructions.delta_body_end s
                  (A ++ x0a :: A ++ x3a :: payload) C HC [] nb) as B.
    rewrite HvC in B.
    replace ((A ++ x0a :: A ++ x3a :: payload) ++ C ++ [x3b]) with D in B.
    2:{ unfold D. rewrite <- app_assoc. cbn [app].
        rewrite <- app_assoc. reflexivity. }
    rewrite Checksum.len_app, Checksum.len_cons, Checksum.len_app,
      Checksum.len_cons in B.
    replace (len A + (1 + (len A + (1 + len payload))))
      with (len A + 1 + len A + 1 + len payload) in B by lia.
    exact B. }
  unfold delta_apply_fuel. rewrite G0. cbn [delta_while].
  destruct (len A + 1 <? len D) eqn:E1; [|apply Z.ltb_ge in E1; lia].
  rewrite B1.
  destruct (len A + 1 + len A + 1 + len payload <? len D) eqn:E2;
    [|apply Z.ltb_ge in E2; lia].
  rewrite B2. f_equal. unfold delta_finish.
  rewrite Z.eqb_refl. cbn [negb].
  rewrite Checksum.delta_checksum_word_sum. cbn [bind].
  destruct check; cbn [andb]; [|reflexivity].
  destruct (negb (c =? word_sum payload)); reflexivity.
Qed.

Lemma delta_apply_literal_witness :
  delta_apply true (b "old") (literal_delta (b "new text") 0) false
  = if false && negb (0 =? word_sum (b "new text"))
    then Raise (ValueError DataMismatch) else Ok (b "new text").
Proof.
  apply (delta_apply_literal true (b "old") (b "new text") 0 false). lia.
Defined.

End DeltaWhole.

(** ** Escaping and unescaping *)

Module TextEscape.

Local Open Scope string_scope.

Lemma prefix_one (a c : ascii) (s : string) :
  prefix (String a "") (String c s) = Ascii.eqb c a.
Proof.
  cbn [prefix]. destruct (ascii_dec a c) as [->|Hne].
  - rewrite Ascii.eqb_refl. destruct s; reflexivity.
  - symmetry. apply Ascii.eqb_neq. congruence.
Qed.

(** Replacing a one-character string works character by character. *)
Lemma replace_one_char (a : ascii) (new s : string) :
  PyStr.replace (String a "") new s
  = string_flat_map (fun c => if Ascii.eqb c a then new else String c "") s.
Proof.
  unfold PyStr.replace.
  induction s as [|c s IH]; [reflexivity|].
  cbn [PyStr.replace_from string_flat_map].
  rewrite prefix_one. cbn [String.length Nat.sub].
  destruct (Ascii.eqb c a); rewrite IH; reflexivity.
Qed.

Lemma string_flat_map_app (f : ascii -> string) (s t : string) :
  string_flat_map f (s ++ t) = string_flat_map f s ++ string_flat_map f t.
Proof.
  induction s as [|c s IH]; [reflexivity|].
  cbn [append string_flat_map]. rewrite IH.
  generalize (f c) as u. intros u.
  induction u as [|d u IHu]; [reflexivity|]. cbn [append]. rewrite IHu.
  reflexivity.
Qed.

Lemma string_flat_map_compose (f g : ascii -> string) (s : string) :
  string_flat_map f (string_flat_map g s)
  = string_flat_map (fun c => string_flat_map f (g c)) s.
Proof.
  induction s as [|c s IH]; [reflexivity|].
  cbn [string_flat_map]. rewrite string_flat_map_app, IH. reflexivity.
Qed.

Lemma string_flat_map_ext (f g : ascii -> string) (s : string) :
  (forall c, f c = g c) -> string_flat_map f s = string_flat_map g s.
Proof.
  intros H. induction s as [|c s IH]; [reflexivity|].
  cbn [string_flat_map]. rewrite H, IH. reflexivity.
Qed.

(** [text_escape] rewrites a string character by character. *)
Lemma text_escape_chars (s : string) :
  text_escape s = string_flat_map escape_char s.
Proof.
  unfold text_escape, bs, nl.
  change " " with (String " " "") at 1.
  rewrite !replace_one_char, !string_flat_map_compose.
  apply string_flat_map_ext. intros c. unfold escape_char.
  destruct (Ascii.eqb c "\") eqn:E1.
  { apply Ascii.eqb_eq in E1. subst c. reflexivity. }
  cbn [string_flat_map append].
  destruct (Ascii.eqb c " ") eqn:E2.
  { apply Ascii.eqb_eq in E2. subst c. reflexivity. }
  cbn [string_flat_map append].
  destruct (Ascii.eqb c (ascii_of_nat 10)); reflexivity.
Qed.

Lemma chars_app (s t : string) : chars (s ++ t) = (chars s ++ chars t)%list.
Proof.
  unfold chars. induction s as [|c s IH]; [reflexivity|].
  cbn [append list_ascii_of_string]. rewrite IH. reflexivity.
Qed.

Lemma escape_char_plain (c : ascii) :
  ~ In " "%char (chars (escape_char c)) /\
  ~ In (ascii_of_nat 10) (chars (escape_char c)).
Proof.
  unfold escape_char.
  destruct (Ascii.eqb c "\") eqn:E1.
  { split; cbn; intuition discriminate. }
  destruct (Ascii.eqb c " ") eqn:E2.
  { split; cbn; intuition discriminate. }
  destruct (Ascii.eqb c (ascii_of_nat 10)) eqn:E3.
  { split; cbn; intuition discriminate. }
  split; cbn [chars list_ascii_of_string In]; intros [H|[]]; subst c.
  - vm_compute in E2. discriminate.
  - vm_compute in E3. discriminate.
Qed.

Lemma text_escape_plain (s : string) :
  ~ In " "%char (chars (text_escape s)) /\
  ~ In (ascii_of_nat 10) (chars (text_escape s)).
Proof.
  rewrite text_escape_chars.
  induction s as [|c s [IH1 IH2]]; [split; intros []|].
  cbn [string_flat_map]. rewrite chars_app.
  destruct (escape_char_plain c) as [H1 H2].
  split; intros H; apply in_app_or in H; tauto.
Qed.

Lemma split_from_no_sep (sep : ascii) (s : string) :
  forall cur,
    ~ In sep (chars s) -> PyStr.split_from sep cur s = [cur ++ s].
Proof.
  induction s as [|c s IH]; intros cur H; cbn [PyStr.split_from].
  - f_equal. induction cur as [|d cur IHc]; [reflexivity|].
    cbn [append]. rewrite <- IHc. reflexivity.
  - destruct (Ascii.eqb c sep) eqn:E.
    + apply Ascii.eqb_eq in E. subst c. exfalso. apply H. left. reflexivity.
    + rewrite IH by (intros Hin; apply H; right; exact Hin).
      f_equal. clear. induction cur as [|d cur IHc]; [reflexivity|].
      cbn [append]. rewrite IHc. reflexivity.
Qed.

(** X16.  An escaped text is one token on one line: it has no space, so that
    [split(' ')] leaves it whole, and no newline. *)
Theorem text_escape_is_one_token (s : string) :
  PyStr.split " " (text_escape s) = [text_escape s] /\
  ~ In (ascii_of_nat 10) (chars (text_escape s)).
Proof.
  destruct (text_escape_plain s) as [H1 H2]. split; [|exact H2].
  unfold PyStr.split. rewrite split_from_no_sep by exact H1. reflexivity.
Qed.

Section TwoCharacters.

Variables (a c0 : ascii) (new : string).

Abbreviation old2 := (String a (String c0 "")).

Lemma replace_hit (s : string) :
  PyStr.replace_from old2 new (String a (String c0 s)) 0
  = new ++ PyStr.replace_from old2 new s 0.
Proof.
  cbn [PyStr.replace_from prefix].
  destruct (ascii_dec a a) as [_|N]; [|contradiction].
  destruct (ascii_dec c0 c0) as [_|N]; [|contradiction].
  assert (P : prefix "" s = true) by (destruct s; reflexivity).
  rewrite P. reflexivity.
Qed.

Lemma replace_miss (c : ascii) (s : string) :
  c <> a ->
  PyStr.replace_from old2 new (String c s) 0
  = String c (PyStr.replace_from old2 new s 0).
Proof.
  intros H. cbn [PyStr.replace_from prefix].
  destruct (ascii_dec a c) as [E|_]; [congruence | reflexivity].
Qed.

Lemma replace_miss_second (d : ascii) (s : string) :
  d <> c0 ->
  PyStr.replace_from old2 new (String a (String d s)) 0
  = String a (PyStr.replace_from old2 new (String d s) 0).
Proof.
  intros H.
  change (PyStr.replace_from old2 new (String a (String d s)) 0)
    with (if prefix old2 (String a (String d s))
          then new ++ PyStr.replace_from old2 new (String d s)
                        (String.length old2 - 1)
          else String a (PyStr.replace_from old2 new (String d s) 0)).
  cbn [prefix].
  destruct (ascii_dec a a) as [_|N]; [|contradiction].
  destruct (ascii_dec c0 d) as [E|_]; [congruence | reflexivity].
Qed.

End TwoCharacters.

Lemma no_backslash_cons (c : ascii) (s : string) :
  no_backslash (String c s) -> c <> "\"%char /\ no_backslash s.
Proof.
  unfold no_backslash, chars. cbn [list_ascii_of_string In]. intros H.
  split; [intros E; apply H; left; congruence | tauto].
Qed.

Lemma unescape_spaces (s : string) :
  no_backslash s ->
  PyStr.replace_from "\s" " " (string_flat_map escape_char s) 0
  = string_flat_map
      (fun c => if Ascii.eqb c (ascii_of_nat 10) then "\n" else String c "")
      s.
Proof.
  induction s as [|c s IH]; intros H; [reflexivity|].
  apply no_backslash_cons in H. destruct H as [Hc Hs].
  cbn [string_flat_map]. unfold escape_char at 1.
  destruct (Ascii.eqb c "\") eqn:E1; [apply Ascii.eqb_eq in E1; congruence|].
  destruct (Ascii.eqb c " ") eqn:E2.
  { apply Ascii.eqb_eq in E2. subst c. cbn [append].
    rewrite replace_hit, IH by exact Hs. reflexivity. }
  destruct (Ascii.eqb c (ascii_of_nat 10)) eqn:E3.
  { cbn [append]. rewrite replace_miss_second by discriminate.
    rewrite replace_miss by discriminate. rewrite IH by exact Hs.
    reflexivity. }
  cbn [append]. rewrite replace_miss by exact Hc. rewrite IH by exact Hs.
  reflexivity.
Qed.

Lemma unescape_newlines (s : string) :
  no_backslash s ->
  PyStr.replace_from "\n" nl
    (string_flat_map
       (fun c => if Ascii.eqb c (ascii_of_nat 10) then "\n" else String c "")
       s) 0
  = s.
Proof.
  induction s as [|c s IH]; intros H; [reflexivity|].
  apply no_backslash_cons in H. destruct H as [Hc Hs].
  cbn [string_flat_map].
  destruct (Ascii.eqb c (ascii_of_nat 10)) eqn:E.
  - apply Ascii.eqb_eq in E. subst c. cbn [append].
    rewrite replace_hit, IH by exact Hs. reflexivity.
  - cbn [append]. rewrite replace_miss by exact Hc. rewrite IH by exact Hs.
    reflexivity.
Qed.

Lemma unescape_backslashes (s : string) :
  no_backslash s -> PyStr.replace_from "\\" "\" s 0 = s.
Proof.
  induction s as [|c s IH]; intros H; [reflexivity|].
  apply no_backslash_cons in H. destruct H as [Hc Hs].
  rewrite replace_miss by exact Hc. rewrite IH by exact Hs. reflexivity.
Qed.

(** X17.  On a text without a backslash, unescaping undoes escaping. *)
Theorem text_unescape_escape (s : string) :
  ~ In "\"%char (chars s) ->
  text_unescape (text_escape s) = s.
Proof.
  intros H. rewrite text_escape_chars. unfold text_unescape, bs.
  cbn [append PyStr.replace].
  rewrite unescape_spaces, unescape_newlines, unescape_backslashes
    by exact H.
  reflexivity.
Qed.

Lemma text_unescape_escape_witness :
  text_unescape (text_escape ("two words" ++ nl)) = "two words" ++ nl.
Proof.
  apply (text_unescape_escape ("two words" ++ nl)).
  cbn. intuition discriminate.
Defined.

End TextEscape.

(** ** More on the clear-sign stripper *)

Module ClearsignMore.

(** X18.  What the stripper returns for a blob with the header: the lines after
    the first blank line and before the signature line that are not blank,
    each without its dash escape, put together. *)
Theorem remove_clearsign_region (blob : bytes) :
  startswith clearsign_header blob = true ->
  remove_clearsign blob
  = List.concat (map undash (filter nonblank (signed_region blob))).
Proof. apply Clearsign.remove_clearsign_signed. Qed.

Lemma remove_clearsign_region_witness :
  remove_clearsign signed_with_blank
  = List.concat
      (map undash (filter nonblank (signed_region signed_with_blank))).
Proof.
  apply (remove_clearsign_region signed_with_blank). reflexivity.
Defined.

(** The stripper never adds a byte, and a blob with the header loses at
    least one. *)
Theorem remove_clearsign_length (blob : bytes) :
  len (remove_clearsign blob) <= len blob /\
  (startswith clearsign_header blob = true ->
   len (remove_clearsign blob) < len blob).
Proof.
  destruct (startswith clearsign_header blob) eqn:E.
  - pose proof (Clearsign.remove_clearsign_shorter blob E) as H.
    unfold len. split; [lia | intros _; lia].
  - rewrite Clearsign.remove_clearsign_unsigned by exact E.
    split; [lia | discriminate].
Qed.

Lemma after_first_blank_none (lns : list bytes) :
  forallb nonblank lns = true -> after_first_blank lns = [].
Proof.
  induction lns as [|ln lns IH]; [reflexivity|].
  cbn [forallb after_first_blank]. intros H.
  apply andb_prop in H. destruct H as [Hn Hs].
  unfold nonblank in Hn. destruct (is_blank ln); [discriminate|].
  apply IH. exact Hs.
Qed.

(** X19.  A blob with the header in which no line is blank has no signed text:
    the stripper returns the empty blob. *)
Theorem remove_clearsign_no_blank_line (blob : bytes) :
  startswith clearsign_header blob = true ->
  forallb nonblank (PyBytes.splitlines blob) = true ->
  remove_clearsign blob = [].
Proof.
  intros H Hn. rewrite Clearsign.remove_clearsign_signed by exact H.
  unfold signed_region. rewrite after_first_blank_none by exact Hn.
  reflexivity.
Qed.

Lemma remove_clearsign_no_blank_line_witness :
  remove_clearsign
    (lines_of [ "-----BEGIN PGP SIGNED MESSAGE-----"; "Hash: SHA1";
                "C hi" ]%string)
  = [].
Proof.
  apply remove_clearsign_no_blank_line; reflexivity.
Defined.

End ClearsignMore.

(** ** The LRU cache *)

Module Cache.

Lemma contains_In {V} (key : Z) (d : OrderedDict.t V) :
  OrderedDict.contains key d = true <-> In key (map fst d).
Proof.
  unfold OrderedDict.contains. rewrite existsb_exists. split.
  - intros [[k v] [Hin Hk]]. apply Z.eqb_eq in Hk. cbn in Hk. subst k.
    apply in_map_iff. exists (key, v). split; [reflexivity | exact Hin].
  - intros H. apply in_map_iff in H. destruct H as [[k v] [Hk Hin]].
    cbn in Hk. subst k. exists (key, v). split; [exact Hin|].
    apply Z.eqb_refl.
Qed.

Lemma contains_not_In {V} (key : Z) (d : OrderedDict.t V) :
  OrderedDict.contains key d = false <-> ~ In key (map fst d).
Proof.
  rewrite <- contains_In. destruct (OrderedDict.contains key d);
    split; congruence.
Qed.

Lemma pop_absent {V} (key : Z) (d : OrderedDict.t V) :
  ~ In key (map fst d) -> OrderedDict.pop key d = Raise KeyError.
Proof.
  induction d as [|[k v] d IH]; intros H; [reflexivity|].
  cbn [OrderedDict.pop]. cbn [map fst In] in H.
  destruct (k =? key) eqn:E; [apply Z.eqb_eq in E; tauto|].
  rewrite IH by tauto. reflexivity.
Qed.

Lemma pop_found {V} (key : Z) (v : V) (d1 d2 : OrderedDict.t V) :
  ~ In key (map fst d1) ->
  OrderedDict.pop key (d1 ++ (key, v) :: d2) = Ok (v, d1 ++ d2).
Proof.
  induction d1 as [|[k w] d1 IH]; intros H.
  - cbn [app OrderedDict.pop]. rewrite Z.eqb_refl. reflexivity.
  - cbn [app OrderedDict.pop]. cbn [map fst In] in H.
    destruct (k =? key) eqn:E; [apply Z.eqb_eq in E; tauto|].
    rewrite IH by tauto. reflexivity.
Qed.

Lemma In_split_first {V} (key : Z) (d : OrderedDict.t V) :
  In key (map fst d) ->
  exists v d1 d2, d = d1 ++ (key, v) :: d2 /\ ~ In key (map fst d1).
Proof.
  induction d as [|[k w] d IH]; intros H; [contradiction|].
  destruct (Z.eq_dec k key) as [->|Hne].
  - exists w, [], d. split; [reflexivity | intros []].
  - cbn [map fst In] in H. destruct H as [H|H]; [contradiction|].
    destruct (IH H) as (v & d1 & d2 & -> & Hd1).
    exists v, ((k, w) :: d1), d2. split; [reflexivity|].
    cbn [map fst In]. tauto.
Qed.

Lemma keys_app {V} (d1 d2 : OrderedDict.t V) :
  map fst (d1 ++ d2) = map fst d1 ++ map fst d2.
Proof. apply map_app. Qed.

(** What [setitem] does when the capacity is not zero: the item goes to
    the end; a key that was there is taken out first, and a key that was
    not pushes the first item out when the cache is full. *)
Lemma setitem_data (key : Z) (value : bytes) (c c' : LRUCache) :
  capacity c <> 0 ->
  NoDup (cache_keys c) ->
  LRUCache_setitem key value c = Ok c' ->
  capacity c' = capacity c /\
  exists d,
    data c' = d ++ [(key, value)] /\
    ~ In key (map fst d) /\ NoDup (map fst d) /\
    incl (map fst d) (cache_keys c) /\
    (In key (cache_keys c) -> len d = len (data c) - 1) /\
    (~ In key (cache_keys c) ->
     d = if capacity c <=? len (data c) then tl (data c) else data c).
Proof.
  unfold LRUCache_setitem, cache_keys. intros Hcap Hnd.
  destruct (capacity c =? 0) eqn:E; [apply Z.eqb_eq in E; contradiction|].
  cbn [negb].
  destruct (in_dec Z.eq_dec key (map fst (data c))) as [Hin|Hout].
  - destruct (In_split_first key (data c) Hin) as (v & d1 & d2 & Hd & Hd1).
    rewrite Hd in *. rewrite pop_found by exact Hd1.
    intros H. injection H as <-. cbn [capacity data].
    split; [reflexivity|]. exists (d1 ++ d2).
    rewrite keys_app in Hnd. cbn [map fst] in Hnd.
    pose proof (NoDup_remove_1 _ _ _ Hnd) as N1.
    pose proof (NoDup_remove_2 _ _ _ Hnd) as N2.
    rewrite !keys_app. cbn [map fst].
    repeat split; try assumption; try reflexivity.
    + intros k Hk. apply in_app_or in Hk. apply in_or_app.
      destruct Hk; [left | right; right]; assumption.
    + intros _. rewrite !Checksum.len_app, Checksum.len_cons. lia.
    + intros Habs. exfalso. apply Habs. apply in_or_app. right. left.
      reflexivity.
  - rewrite pop_absent by exact Hout.
    destruct (capacity c <=? len (data c)) eqn:Efull.
    + destruct (data c) as [|kv d] eqn:Ed; cbn [OrderedDict.popitem_first bind];
        [discriminate|].
      intros H. injection H as <-. cbn [capacity data].
      split; [reflexivity|]. exists d.
      cbn [map In] in *. apply NoDup_cons_iff in Hnd.
      repeat split; try tauto.
      intros k Hk. right. exact Hk.
    + cbn [bind]. intros H. injection H as <-. cbn [capacity data].
      split; [reflexivity|]. exists (data c).
      repeat split; try tauto. apply incl_refl.
Qed.

(** X20.  What was stored can be read: after [cache[key] = value] the key is in
    the cache as its most recent item, and [cache[key]] returns the value
    and leaves the cache as it is. *)
Theorem setitem_then_getitem (key : Z) (value : bytes) (c c' : LRUCache) :
  capacity c <> 0 ->
  NoDup (cache_keys c) ->
  LRUCache_setitem key value c = Ok c' ->
  LRUCache_contains key c' = true /\
  last (cache_keys c') key = key /\
  LRUCache_getitem key c' = Ok (value, c').
Proof.
  intros Hcap Hnd H.
  destruct (setitem_data key value c c' Hcap Hnd H)
    as (Hc & d & Hd & Hout & _).
  unfold LRUCache_contains, LRUCache_getitem, cache_keys. rewrite Hd.
  repeat split.
  - apply contains_In. rewrite keys_app. apply in_or_app. right. left.
    reflexivity.
  - rewrite keys_app. apply last_last.
  - rewrite pop_found by exact Hout. rewrite app_nil_r. cbn [bind].
    unfold OrderedDict.append. rewrite <- Hd. destruct c'; reflexivity.
Qed.

Lemma setitem_then_getitem_witness :
  LRUCache_contains 7 (mkLRUCache 2 [(2, b "b"); (7, b "new")]) = true /\
  last (cache_keys (mkLRUCache 2 [(2, b "b"); (7, b "new")])) 7 = 7 /\
  LRUCache_getitem 7 (mkLRUCache 2 [(2, b "b"); (7, b "new")])
  = Ok (b "new", mkLRUCache 2 [(2, b "b"); (7, b "new")]).
Proof.
  apply (setitem_then_getitem 7 (b "new")
           (mkLRUCache 2 [(1, b "a"); (2, b "b")])).
  - discriminate.
  - repeat constructor; cbn; intuition discriminate.
  - reflexivity.
Defined.

(** X21.  With a positive capacity [setitem] never raises, keeps the keys
    distinct and never lets the cache grow beyond its capacity. *)
Theorem setitem_keeps_bound (key : Z) (value : bytes) (c : LRUCache) :
  0 < capacity c ->
  NoDup (cache_keys c) ->
  len (data c) <= capacity c ->
  exists c',
    LRUCache_setitem key value c = Ok c' /\
    capacity c' = capacity c /\
    NoDup (cache_keys c') /\
    len (data c') <= capacity c'.
Proof.
  intros Hcap Hnd Hlen.
  assert (Hok : exists c', LRUCache_setitem key value c = Ok c').
  { unfold LRUCache_setitem.
    destruct (capacity c =? 0) eqn:E; [apply Z.eqb_eq in E; lia|].
    cbn [negb].
    destruct (OrderedDict.pop key (data c)) as [[v d]|e]; [eauto|].
    destruct (capacity c <=? len (data c)) eqn:Efull; [|cbn; eauto].
    apply Z.leb_le in Efull.
    destruct (data c) as [|kv d]; [cbn in Efull; lia | cbn; eauto]. }
  destruct Hok as [c' H]. exists c'. split; [exact H|].
  destruct (setitem_data key value c c' ltac:(lia) Hnd H)
    as (Hc & d & Hd & Hout & Hndd & _ & Hin & Habs).
  split; [exact Hc|]. unfold cache_keys. rewrite Hd, Hc. split.
  - rewrite keys_app. apply NoDup_app; [exact Hndd | repeat constructor;
      intros [] |].
    intros k Hk [<-|[]]. contradiction.
  - rewrite Checksum.len_app. change (len [(key, value)]) with 1.
    destruct (in_dec Z.eq_dec key (cache_keys c)) as [Hi|Ho].
    + rewrite (Hin Hi). lia.
    + rewrite (Habs Ho).
      destruct (capacity c <=? len (data c)) eqn:Efull.
      * destruct (data c) as [|kv d0]; [cbn in *; lia|].
        cbn [tl]. rewrite Checksum.len_cons in Hlen. lia.
      * apply Z.leb_gt in Efull. lia.
Qed.

Lemma setitem_keeps_bound_witness :
  exists c',
    LRUCache_setitem 3 (b "c") (mkLRUCache 2 [(1, b "a"); (2, b "b")])
    = Ok c' /\
    capacity c' = capacity (mkLRUCache 2 [(1, b "a"); (2, b "b")]) /\
    NoDup (cache_keys c') /\
    len (data c') <= capacity c'.
Proof.
  apply (setitem_keeps_bound 3 (b "c")
           (mkLRUCache 2 [(1, b "a"); (2, b "b")])).
  - reflexivity.
  - repeat constructor; cbn; intuition discriminate.
  - vm_compute. discriminate.
Defined.

(** X22.  A new key stored in a full cache pushes out the least recently used
    item and nothing else. *)
Theorem setitem_evicts_oldest (key : Z) (value : bytes) (c : LRUCache) :
  0 < capacity c ->
  len (data c) = capacity c ->
  LRUCache_contains key c = false ->
  LRUCache_setitem key value c
  = Ok (mkLRUCache (capacity c) (tl (data c) ++ [(key, value)])).
Proof.
  intros Hcap Hlen Hout. unfold LRUCache_setitem.
  destruct (capacity c =? 0) eqn:E; [apply Z.eqb_eq in E; lia|].
  cbn [negb]. unfold LRUCache_contains in Hout.
  rewrite pop_absent by (apply contains_not_In; exact Hout).
  destruct (capacity c <=? len (data c)) eqn:Efull;
    [|apply Z.leb_gt in Efull; lia].
  destruct (data c) as [|kv d]; [cbn in Hlen; lia | reflexivity].
Qed.

Lemma setitem_evicts_oldest_witness :
  LRUCache_setitem 3 (b "c") (mkLRUCache 2 [(1, b "a"); (2, b "b")])
  = Ok (mkLRUCache 2 (tl [(1, b "a"); (2, b "b")] ++ [(3, b "c")])).
Proof.
  apply (setitem_evicts_oldest 3 (b "c")
           (mkLRUCache 2 [(1, b "a"); (2, b "b")])); reflexivity.
Defined.

(** X23.  With a negative capacity an empty cache cannot take an item: the
    test for a full cache holds, and [popitem] on the empty dictionary
    raises [KeyError]. *)
Theorem setitem_negative_capacity (key : Z) (value : bytes) (c : LRUCache) :
  capacity c < 0 ->
  data c = [] ->
  LRUCache_setitem key value c = Raise KeyError.
Proof.
  intros Hcap Hd. unfold LRUCache_setitem. rewrite Hd.
  destruct (capacity c =? 0) eqn:E; [apply Z.eqb_eq in E; lia|].
  cbn [negb OrderedDict.pop].
  destruct (capacity c <=? len []) eqn:Efull; [reflexivity|].
  apply Z.leb_gt in Efull. cbn in Efull. lia.
Qed.

Lemma setitem_negative_capacity_witness :
  LRUCache_setitem 1 (b "a") (LRUCache_init (-1)) = Raise KeyError.
Proof.
  apply (setitem_negative_capacity 1 (b "a") (LRUCache_init (-1)));
    reflexivity.
Defined.

(** X24.  Reading a key moves its item to the end and leaves the others in
    their order; [get] does the same. *)
Theorem getitem_promotes (key : Z) (v : bytes) (d1 d2 : OrderedDict.t bytes)
  (cap : Z) (default : option bytes) :
  ~ In key (map fst d1) ->
  LRUCache_getitem key (mkLRUCache cap (d1 ++ (key, v) :: d2))
  = Ok (v, mkLRUCache cap (d1 ++ d2 ++ [(key, v)])) /\
  LRUCache_get key default (mkLRUCache cap (d1 ++ (key, v) :: d2))
  = (Some v, mkLRUCache cap (d1 ++ d2 ++ [(key, v)])).
Proof.
  intros H. unfold LRUCache_getitem, LRUCache_get. cbn [data capacity].
  rewrite pop_found by exact H. cbn [bind]. unfold OrderedDict.append.
  rewrite <- app_assoc. split; reflexivity.
Qed.

Lemma getitem_promotes_witness :
  LRUCache_getitem 1
    (mkLRUCache 3 ([] ++ (1, b "a") :: [(2, b "b"); (3, b "c")]))
  = Ok (b "a",
        mkLRUCache 3 ([] ++ [(2, b "b"); (3, b "c")] ++ [(1, b "a")])) /\
  LRUCache_get 1 None
    (mkLRUCache 3 ([] ++ (1, b "a") :: [(2, b "b"); (3, b "c")]))
  = (Some (b "a"),
     mkLRUCache 3 ([] ++ [(2, b "b"); (3, b "c")] ++ [(1, b "a")])).
Proof.
  apply (getitem_promotes 1 (b "a") [] [(2, b "b"); (3, b "c")] 3 None).
  intros [].
Defined.

(** A key that is not in the cache: [cache[key]] raises [KeyError], [get]
    returns the default, and the cache stays as it is. *)
Theorem getitem_missing (key : Z) (default : option bytes) (c : LRUCache) :
  LRUCache_contains key c = false ->
  LRUCache_getitem key c = Raise KeyError /\
  LRUCache_get key default c = (default, c).
Proof.
  intros H. unfold LRUCache_contains in H. apply contains_not_In in H.
  unfold LRUCache_getitem, LRUCache_get.
  rewrite pop_absent by exact H. split; reflexivity.
Qed.

Lemma getitem_missing_witness :
  LRUCache_getitem 9 (mkLRUCache 2 [(1, b "a")]) = Raise KeyError /\
  LRUCache_get 9 None (mkLRUCache 2 [(1, b "a")])
  = (None, mkLRUCache 2 [(1, b "a")]).
Proof.
  apply (getitem_missing 9 None (mkLRUCache 2 [(1, b "a")])). reflexivity.
Defined.

End Cache.

(** ** The cards of a structural artifact *)

Module Cards.

Lemma cards_get_set (k cmd : string) (e : card_entry) (cards : cards_t) :
  cards_get k (cards_set cmd e cards)
  = if String.eqb k cmd then Ok e else cards_get k cards.
Proof.
  induction cards as [|[k' e'] cards IH]; cbn [cards_set cards_get].
  - rewrite String.eqb_sym. destruct (String.eqb k cmd); reflexivity.
  - destruct (String.eqb k' cmd) eqn:E; cbn [cards_get].
    + apply String.eqb_eq in E. subst k'.
      rewrite (String.eqb_sym k cmd).
      destruct (String.eqb cmd k); reflexivity.
    + destruct (String.eqb k' k) eqn:E'.
      * apply String.eqb_eq in E'. subst k'. rewrite E. reflexivity.
      * exact IH.
Qed.

Lemma cards_contains_get (cmd : string) (cards : cards_t) :
  cards_contains cmd cards = true -> exists e, cards_get cmd cards = Ok e.
Proof.
  induction cards as [|[k e] cards IH]; cbn; [discriminate|].
  destruct (String.eqb k cmd); [eauto | exact IH].
Qed.

Lemma cards_absent_get (cmd : string) (cards : cards_t) :
  cards_contains cmd cards = false -> cards_get cmd cards = Raise KeyError.
Proof.
  induction cards as [|[k e] cards IH]; cbn; [reflexivity|].
  destruct (String.eqb k cmd); [discriminate | exact IH].
Qed.

(** X25.  A card of a type that may repeat is added after the values already
    there, and no other card changes: the values of a type come out in
    the order of the lines. *)
Theorem card_store_appends (cmd : string) (val : card_value)
  (cards : cards_t) :
  in_set cmd CARDMULTI = true ->
  multi_ok cards ->
  exists cards',
    card_store cmd val cards = Ok cards' /\
    cards_get cmd cards' = Ok (Multi (card_values cmd cards ++ [val])) /\
    (forall k, k <> cmd -> cards_get k cards' = cards_get k cards) /\
    multi_ok cards'.
Proof.
  intros Hm Hok. unfold card_store. rewrite Hm.
  assert (Hres : forall vals,
             let cards' := cards_set cmd (Multi vals) cards in
             cards_get cmd cards' = Ok (Multi vals) /\
             (forall k, k <> cmd -> cards_get k cards' = cards_get k cards) /\
             multi_ok cards').
  { intros vals cards'. unfold cards'. repeat split.
    - rewrite cards_get_set, String.eqb_refl. reflexivity.
    - intros k Hk. rewrite cards_get_set.
      apply String.eqb_neq in Hk. rewrite Hk. reflexivity.
    - intros k e Hk. rewrite cards_get_set.
      destruct (String.eqb k cmd).
      + intros H. injection H as <-. eauto.
      + apply Hok. exact Hk. }
  destruct (cards_contains cmd cards) eqn:E.
  - destruct (cards_contains_get cmd cards E) as [e He].
    destruct (Hok cmd e Hm He) as [vals ->].
    unfold cards_append, card_values. rewrite He. cbn [bind].
    eexists. split; [reflexivity|]. apply Hres.
  - unfold card_values. rewrite (cards_absent_get cmd cards E).
    eexists. split; [reflexivity|]. apply Hres.
Qed.

Lemma card_store_appends_witness :
  exists cards',
    card_store "T" (VStr "second") [("T", Multi [VStr "first"])]%string
    = Ok cards' /\
    cards_get "T" cards'
    = Ok (Multi (card_values "T" [("T", Multi [VStr "first"])]%string
                 ++ [VStr "second"])) /\
    (forall k, k <> "T"%string ->
               cards_get k cards'
               = cards_get k [("T", Multi [VStr "first"])]%string) /\
    multi_ok cards'.
Proof.
  apply (card_store_appends "T" (VStr "second")
           [("T", Multi [VStr "first"])]%string).
  - reflexivity.
  - intros cmd e _. cbn [cards_get].
    destruct (String.eqb "T" cmd); [|discriminate].
    intros H. injection H as <-. eauto.
Defined.

(** A card of any other type replaces the value stored before, never
    raises, and leaves the lists of the repeating types as they are. *)
Theorem card_store_overwrites (cmd : string) (val : card_value)
  (cards : cards_t) :
  in_set cmd CARDMULTI = false ->
  multi_ok cards ->
  exists cards',
    card_store cmd val cards = Ok cards' /\
    cards_get cmd cards' = Ok (Single val) /\
    (forall k, k <> cmd -> cards_get k cards' = cards_get k cards) /\
    multi_ok cards'.
Proof.
  intros Hm Hok. unfold card_store. rewrite Hm.
  eexists. split; [reflexivity|]. repeat split.
  - rewrite cards_get_set, String.eqb_refl. reflexivity.
  - intros k Hk. rewrite cards_get_set.
    apply String.eqb_neq in Hk. rewrite Hk. reflexivity.
  - intros k e Hk. rewrite cards_get_set.
    destruct (String.eqb k cmd) eqn:E.
    + apply String.eqb_eq in E. subst k. congruence.
    + apply Hok. exact Hk.
Qed.

Lemma card_store_overwrites_witness :
  exists cards',
    card_store "C" (VStr "new") [("C", Single (VStr "old"))]%string
    = Ok cards' /\
    cards_get "C" cards' = Ok (Single (VStr "new")) /\
    (forall k, k <> "C"%string ->
               cards_get k cards'
               = cards_get k [("C", Single (VStr "old"))]%string) /\
    multi_ok cards'.
Proof.
  apply (card_store_overwrites "C" (VStr "new")
           [("C", Single (VStr "old"))]%string).
  - reflexivity.
  - intros cmd e Hm. cbn [cards_get].
    destruct (String.eqb "C" cmd) eqn:E; [|discriminate].
    apply String.eqb_eq in E. subst cmd. discriminate.
Defined.

Section Library.

Variable utf8_decode : bytes -> result string.
Variable strptime_timegm : string -> result Z.
Variable py_int : string -> result Z.

Abbreviation body := (parse_line utf8_decode strptime_timegm py_int).
Abbreviation value_of := (card_val utf8_decode strptime_timegm py_int).

(** X26.  A line that holds nothing but the letter of a card that takes its
    value from the first token raises [IndexError]. *)
Theorem parse_line_without_argument (cmd : string) (f : bytes)
  (cards : cards_t) :
  In cmd CARDS_WITH_ARGUMENT ->
  body (cmd ++ nl) f cards = Raise IndexError.
Proof.
  intros H. unfold CARDS_WITH_ARGUMENT in H. cbn [In] in H.
  repeat (destruct H as [<-|H]; [reflexivity|]). contradiction.
Qed.

(** X27.  A first token of one character that is not one of the twenty-one
    letters is refused with the parse error. *)
Theorem card_val_unknown_letter (c : ascii) (line : string)
  (toks : list string) (f : bytes) :
  recognized (String c "") = false ->
  value_of line (String c "") toks f
  = Raise (ValueError (UnrecognizedCard (PyStr.rstrip line))).
Proof.
  destruct c as [[] [] [] [] [] [] [] []]; intros H;
    try (vm_compute in H; discriminate H); reflexivity.
Qed.

End Library.

Lemma parse_line_without_argument_witness :
  parse_line no_decode no_number no_number ("D" ++ nl) [] []
  = Raise IndexError.
Proof.
  apply (parse_line_without_argument no_decode no_number no_number "D" [] []).
  cbn. tauto.
Defined.

Lemma card_val_unknown_letter_witness :
  card_val no_decode no_number no_number "x 1" "x" ["1"%string] []
  = Raise (ValueError (UnrecognizedCard (PyStr.rstrip "x 1"))).
Proof.
  apply (card_val_unknown_letter no_decode no_number no_number "x"%char
           "x 1" ["1"%string] []).
  reflexivity.
Defined.

Section GetItem.

Variable str_upper : string -> string.

Abbreviation getitem := (StructuralArtifact_getitem str_upper).

(** Looking a card up by its long name gives what its letter gives, as
    long as the upper-case form of the name is not itself a key. *)
Theorem getitem_long_name (letter name : string) (cards : cards_t) :
  In (letter, name) CARDTYPES ->
  cards_contains (str_upper name) cards = false ->
  getitem name cards = cards_get letter cards.
Proof.
  intros H Hup. unfold StructuralArtifact_getitem. rewrite Hup.
  unfold CARDTYPES in H. cbn [In] in H.
  repeat (destruct H as [H|H];
          [injection H as <- <-; reflexivity|]).
  contradiction.
Qed.

(** X11.  A key that is not in the cards, while its upper-case form is, raises
    [KeyError]: the test looks for [key.upper()], the access uses
    [key]. *)
Theorem getitem_lower_case (key : string) (cards : cards_t) :
  cards_contains (str_upper key) cards = true ->
  cards_contains key cards = false ->
  getitem key cards = Raise KeyError.
Proof.
  intros Hup Hkey. unfold StructuralArtifact_getitem. rewrite Hup.
  apply cards_absent_get. exact Hkey.
Qed.

End GetItem.

Lemma getitem_long_name_witness :
  StructuralArtifact_getitem upper_ascii "comment"
    [("C", Single (VStr "hi"))]%string
  = cards_get "C" [("C", Single (VStr "hi"))]%string.
Proof.
  apply (getitem_long_name upper_ascii "C" "comment"
           [("C", Single (VStr "hi"))]%string).
  - cbn. tauto.
  - reflexivity.
Defined.

Lemma getitem_lower_case_witness :
  StructuralArtifact_getitem upper_ascii "c"
    [("C", Single (VStr "hi"))]%string
  = Raise KeyError.
Proof.
  apply (getitem_lower_case upper_ascii "c"
           [("C", Single (VStr "hi"))]%string); reflexivity.
Defined.

End Cards.

(** ** More on the repository lookup *)

Module Lookups.

Lemma pop_ok_inv {V} (key : Z) (d : OrderedDict.t V) :
  forall v d',
    OrderedDict.pop key d = Ok (v, d') ->
    exists d1 d2,
      d = d1 ++ (key, v) :: d2 /\ ~ In key (map fst d1) /\ d' = d1 ++ d2.
Proof.
  induction d as [|[k w] d IH]; intros v d' H; [discriminate|].
  cbn [OrderedDict.pop] in H.
  destruct (k =? key) eqn:E.
  - apply Z.eqb_eq in E. subst k. injection H as <- <-.
    exists [], d. repeat split. intros [].
  - apply Z.eqb_neq in E.
    destruct (OrderedDict.pop key d) as [[v0 d0]|e]; [|discriminate].
    cbn [bind] in H. injection H as <- <-.
    destruct (IH v0 d0 eq_refl) as (d1 & d2 & -> & Hd1 & ->).
    exists ((k, w) :: d1), d2. repeat split.
    cbn [map fst In]. tauto.
Qed.

(** What a read of the cache leaves behind. *)
Lemma getitem_data (key : Z) (v : bytes) (c c' : LRUCache) :
  NoDup (cache_keys c) ->
  LRUCache_getitem key c = Ok (v, c') ->
  capacity c' = capacity c /\
  exists d,
    data c' = d ++ [(key, v)] /\ ~ In key (map fst d) /\ NoDup (map fst d).
Proof.
  unfold LRUCache_getitem, cache_keys. intros Hnd H.
  destruct (OrderedDict.pop key (data c)) as [[v0 d0]|e] eqn:P;
    [|discriminate].
  cbn [bind] in H. injection H as <- <-. cbn [capacity data].
  split; [reflexivity|].
  destruct (pop_ok_inv key (data c) v0 d0 P) as (d1 & d2 & Hd & Hd1 & ->).
  rewrite Hd, Cache.keys_app in Hnd. cbn [map fst] in Hnd.
  exists (d1 ++ d2). rewrite Cache.keys_app. repeat split.
  - exact (NoDup_remove_2 _ _ _ Hnd).
  - exact (NoDup_remove_1 _ _ _ Hnd).
Qed.

Section Lookup.

Variable NUMPY_AVAILABLE : bool.
Variable zlib_decompress : bytes -> result bytes.
Variable utf8_decode : bytes -> result string.
Variable strptime_timegm : string -> result Z.
Variable py_int : string -> result Z.
Variable chain_query : key_t -> list row.

Abbreviation lookup :=
  (artifact NUMPY_AVAILABLE zlib_decompress utf8_decode strptime_timegm
     py_int chain_query).
Abbreviation lookup_for := (artifact_for NUMPY_AVAILABLE zlib_decompress).
Abbreviation finish := (artifact_finish utf8_decode strptime_timegm py_int).
Abbreviation inflate := (decompress zlib_decompress).

(** X28.  The four bytes of size in front of a stored blob are read and not
    used: fewer than four bytes are a [struct.error], and otherwise the
    result is that of inflating what follows them. *)
Theorem decompress_ignores_size (content : bytes) :
  inflate content
  = if len content <? 4 then Raise (LibraryError "struct.error")
    else zlib_decompress (skipn 4 content).
Proof.
  unfold decompress.
  destruct content as [|b0 [|b1 [|b2 [|b3 rest]]]]; try reflexivity.
  rewrite Checksum.slice_nonneg by lia.
  change (firstn _ _) with [b0; b1; b2; b3].
  rewrite Checksum.unpack_be32_word. cbn [bind].
  rewrite Checksum.slice_from_nonneg by lia.
  change (skipn (Z.to_nat 4) (b0 :: b1 :: b2 :: b3 :: rest)) with rest.
  rewrite Checksum.len_cons4.
  pose proof (Checksum.len_nonneg rest).
  destruct (len rest + 1 * 4 <? 4) eqn:E; [apply Z.ltb_lt in E; lia|].
  cbn [skipn]. destruct (zlib_decompress rest); reflexivity.
Qed.

(** What the last part of [artifact] returns, when it returns. *)
Lemma artifact_finish_ok (type_ : option string) (st : locals)
  (a : artifact_t) :
  finish type_ st = Ok a ->
  l_blob st = Some (artifact_blob a) /\
  l_rid st = Some (artifact_rid a) /\
  l_uuid st = Some (artifact_uuid a).
Proof.
  unfold artifact_finish.
  destruct (truthy (l_blob st)) eqn:T; cbn [negb].
  - destruct (l_blob st) as [[|c blob]|]; try discriminate.
    destruct (l_rid st) as [rid|]; cbn [local bind]; [|discriminate].
    destruct (l_uuid st) as [uuid|]; cbn [local bind]; [|discriminate].
    assert (Plain : forall f : bytes -> Z -> string -> artifact_t,
               (forall x y z, artifact_blob (f x y z) = x /\
                              artifact_rid (f x y z) = y /\
                              artifact_uuid (f x y z) = z) ->
               Ok (f (c :: blob) rid uuid) = Ok a ->
               Some (c :: blob) = Some (artifact_blob a) /\
               Some rid = Some (artifact_rid a) /\
               Some uuid = Some (artifact_uuid a)).
    { intros f Hf H; injection H as <-.
      destruct (Hf (c :: blob) rid uuid) as (-> & -> & ->).
      repeat split. }
    assert (PA := Plain Artifact ltac:(repeat split)).
    assert (PF := Plain File ltac:(repeat split)).
    assert (PS : (cards <- parse utf8_decode strptime_timegm py_int
                              (c :: blob) ;;
                  Ok (StructuralArtifact (c :: blob) rid uuid cards)) = Ok a ->
                 Some (c :: blob) = Some (artifact_blob a) /\
                 Some rid = Some (artifact_rid a) /\
                 Some uuid = Some (artifact_uuid a)).
    { destruct (parse _ _ _ _) as [cards|e]; cbn [bind]; [|discriminate].
      intros H; injection H as <-. repeat split. }
    clear Plain. revert PA PF PS.
    generalize (Artifact (c :: blob) rid uuid) as aa.
    generalize (File (c :: blob) rid uuid) as af.
    generalize (cards <- parse utf8_decode strptime_timegm py_int
                          (c :: blob) ;;
                Ok (StructuralArtifact (c :: blob) rid uuid cards)) as asr.
    intros asr af aa PA PF PS.
    destruct type_ as [t|]; [|exact PA].
    repeat match goal with
           | |- context [match ?x with _ => _ end] =>
               match type of x with
               | string => destruct x
               | ascii => destruct x
               | bool => destruct x
               end
           end; assumption.
  - destruct (local "rid" (l_rid st)); discriminate.
Qed.

(** X29.  The artifact that a lookup returns carries the row id and the hash of
    the last row of the chain, the requested one. *)
Theorem artifact_is_target (check : bool) (cache : LRUCache) (key : key_t)
  (type_ : option string) (a : artifact_t) (cache' : LRUCache) :
  lookup check cache key type_ = (Ok a, cache') ->
  exists rows0 content,
    chain_query key = rows0 ++ [(artifact_rid a, artifact_uuid a, content)].
Proof.
  unfold artifact.
  destruct (lookup_for check (chain_query key) _ cache) as [[st|e] c] eqn:F;
    cbn [bind]; [|discriminate].
  intros H. injection H as H _.
  apply artifact_finish_ok in H. destruct H as (Hb & Hr & Hu).
  destruct (chain_query key) as [|r rows] eqn:Q.
  - cbn in F. injection F as <- _. discriminate.
  - destruct (Repository.artifact_for_bound NUMPY_AVAILABLE zlib_decompress
                check (r :: rows) _ _ _ _ ltac:(discriminate) F)
      as (rows0 & rid & uuid & content & blob & Hrows & ->).
    cbn in Hr, Hu. injection Hr as <-. injection Hu as <-.
    exists rows0, content. exact Hrows.
Qed.

(** With a capacity of zero the cache plays no part: a lookup leaves it
    empty. *)
Lemma artifact_for_disabled (check : bool) (rows : list row) :
  forall st,
    snd (lookup_for check rows st (LRUCache_init 0)) = LRUCache_init 0.
Proof.
  induction rows as [|[[rid uuid] content] rows IH]; intros st;
    [reflexivity|].
  cbn [artifact_for]. change (LRUCache_contains rid (LRUCache_init 0))
    with false. cbv iota.
  match goal with
  | |- context [match ?m with Ok _ => _ | Raise _ => _ end] =>
      destruct m as [blob|e]
  end; [|reflexivity].
  change (LRUCache_setitem rid blob (LRUCache_init 0))
    with (Ok (LRUCache_init 0)).
  apply IH.
Qed.

Theorem artifact_cache_disabled (check : bool) (key : key_t)
  (type_ : option string) :
  snd (lookup check (LRUCache_init 0) key type_) = LRUCache_init 0.
Proof.
  unfold artifact.
  pose proof (artifact_for_disabled check (chain_query key)
                (mkLocals None None None)) as H.
  destruct (lookup_for check (chain_query key) _ _) as [r c].
  exact H.
Qed.

(** The loop of [artifact] with a cache that is in use: the keys stay
    distinct, and after the last row the cache holds the buffer under the
    row id of that row, as its most recent item. *)
Lemma artifact_for_cached (check : bool) (rows : list row) :
  forall st cache st' cache',
    capacity cache <> 0 ->
    NoDup (cache_keys cache) ->
    lookup_for check rows st cache = (Ok st', cache') ->
    rows <> [] ->
    exists d blob rid,
      l_blob st' = Some blob /\ l_rid st' = Some rid /\
      data cache' = d ++ [(rid, blob)] /\ ~ In rid (map fst d).
Proof.
  induction rows as [|[[rid uuid] content] rows IH];
    intros st cache st' cache' Hcap Hnd H Hne; [contradiction|].
  cbn [artifact_for] in H.
  assert (Step : forall blob c1,
             capacity c1 = capacity cache ->
             (exists d, data c1 = d ++ [(rid, blob)] /\
                        ~ In rid (map fst d) /\ NoDup (map fst d)) ->
             lookup_for check rows
               (mkLocals (Some blob) (Some rid) (Some uuid)) c1
             = (Ok st', cache') ->
             exists d blob0 rid0,
               l_blob st' = Some blob0 /\ l_rid st' = Some rid0 /\
               data cache' = d ++ [(rid0, blob0)] /\ ~ In rid0 (map fst d)).
  { intros blob c1 Hc1 (d & Hd & Hout & Hndd) Hrest.
    destruct rows as [|r rows'].
    - cbn in Hrest. injection Hrest as <- <-.
      exists d, blob, rid. repeat split; assumption.
    - apply (IH (mkLocals (Some blob) (Some rid) (Some uuid)) c1 st' cache');
        try assumption; try discriminate.
      + congruence.
      + unfold cache_keys. rewrite Hd, Cache.keys_app.
        apply NoDup_app; [exact Hndd | repeat constructor; intros [] |].
        intros k Hk [<-|[]]. contradiction. }
  destruct (LRUCache_contains rid cache).
  - destruct (LRUCache_getitem rid cache) as [[blob c1]|e] eqn:G;
      [|discriminate].
    destruct (getitem_data rid blob cache c1 Hnd G) as [Hc1 Hd].
    eapply Step; eassumption.
  - match type of H with
    | match ?m with _ => _ end = _ => destruct m as [blob|e]
    end; [|discriminate].
    destruct (LRUCache_setitem rid blob cache) as [c1|e] eqn:S;
      [|discriminate].
    destruct (Cache.setitem_data rid blob cache c1 Hcap Hnd S)
      as (Hc1 & d & Hd & Hout & Hndd & _).
    eapply Step; try eassumption. exists d. repeat split; assumption.
Qed.

(** X30.  A lookup that succeeds with a cache in use leaves its result in the
    cache: reading the row id of the artifact from the cache gives its
    blob. *)
Theorem artifact_result_is_cached (check : bool) (cache : LRUCache)
  (key : key_t) (type_ : option string) (a : artifact_t)
  (cache' : LRUCache) :
  capacity cache <> 0 ->
  NoDup (cache_keys cache) ->
  lookup check cache key type_ = (Ok a, cache') ->
  LRUCache_getitem (artifact_rid a) cache' = Ok (artifact_blob a, cache').
Proof.
  intros Hcap Hnd. unfold artifact.
  destruct (lookup_for check (chain_query key) _ cache) as [[st|e] c] eqn:F;
    cbn [bind]; [|discriminate].
  intros H. injection H as H <-.
  apply artifact_finish_ok in H. destruct H as (Hb & Hr & _).
  assert (Hne : chain_query key <> []).
  { intros E. rewrite E in F. cbn in F. injection F as <- _. discriminate. }
  destruct (artifact_for_cached check _ _ _ _ _ Hcap Hnd F Hne)
    as (d & blob & rid & Hb' & Hr' & Hd & Hout).
  rewrite Hb in Hb'. injection Hb' as <-.
  rewrite Hr in Hr'. injection Hr' as <-.
  unfold LRUCache_getitem. rewrite Hd.
  rewrite Cache.pop_found by exact Hout. rewrite app_nil_r. cbn [bind].
  unfold OrderedDict.append. rewrite <- Hd. destruct c; reflexivity.
Qed.

End Lookup.

(** A repository with one stored blob, [b"hello"] after four bytes of
    size. *)
Lemma artifact_is_target_witness :
  exists rows0 content,
    one_blob_row (ByRid 5)
    = rows0 ++ [(artifact_rid (Artifact (b "hello") 5 "aaf4c61d"),
                 artifact_uuid (Artifact (b "hello") 5 "aaf4c61d"),
                 content)].
Proof.
  apply (artifact_is_target false stored no_decode no_number no_number
           one_blob_row false (LRUCache_init 64) (ByRid 5) None
           (Artifact (b "hello") 5 "aaf4c61d")
           (mkLRUCache 64 [(5, b "hello")])).
  reflexivity.
Defined.

Lemma artifact_result_is_cached_witness :
  LRUCache_getitem (artifact_rid (Artifact (b "hello") 5 "aaf4c61d"))
    (mkLRUCache 64 [(5, b "hello")])
  = Ok (artifact_blob (Artifact (b "hello") 5 "aaf4c61d"),
        mkLRUCache 64 [(5, b "hello")]).
Proof.
  apply (artifact_result_is_cached false stored no_decode no_number
           no_number one_blob_row false (LRUCache_init 64) (ByRid 5) None
           (Artifact (b "hello") 5 "aaf4c61d")
           (mkLRUCache 64 [(5, b "hello")])).
  - discriminate.
  - constructor.
  - reflexivity.
Defined.

End Lookups.

(** ** Signed and unsigned words *)

Module Words.

Lemma land_bit31 (v : Z) :
  Z.land v (2 ^ 31) = if Z.testbit v 31 then 2 ^ 31 else 0.
Proof.
  apply Z.bits_inj'. intros n Hn.
  rewrite Z.land_spec, Z.pow2_bits_eqb by lia.
  destruct (Z.eqb_spec 31 n) as [<-|Hne].
  - destruct (Z.testbit v 31); [|rewrite Z.bits_0; reflexivity].
    rewrite Z.pow2_bits_eqb by lia. reflexivity.
  - rewrite andb_false_r.
    destruct (Z.testbit v 31); [|rewrite Z.bits_0; reflexivity].
    rewrite Z.pow2_bits_eqb by lia. symmetry. apply Z.eqb_neq. exact Hne.
Qed.

Lemma bit31_high (v : Z) :
  0 <= v < 2 ^ 32 -> Z.testbit v 31 = (2 ^ 31 <=? v).
Proof.
  intros Hv. destruct (2 ^ 31 <=? v) eqn:E.
  - apply Z.leb_le in E. apply Z.testbit_true; [lia|].
    assert (H1 : v / 2 ^ 31 = 1).
    { symmetry. apply (Z.div_unique v (2 ^ 31) 1 (v - 2 ^ 31)); lia. }
    rewrite H1. reflexivity.
  - apply Z.leb_gt in E. apply Z.testbit_false; [lia|].
    rewrite Z.div_small by lia. reflexivity.
Qed.

(** X5.  On a word of 32 bits [unsigned_to_signed] gives the signed number of
    the same bits: it lies between -2^31 and 2^31, is the word itself
    below 2^31, and differs from it by 2^32 otherwise. *)
Theorem unsigned_to_signed_word (v : Z) :
  0 <= v < 2 ^ 32 ->
  - 2 ^ 31 <= unsigned_to_signed v < 2 ^ 31 /\
  unsigned_to_signed v mod 2 ^ 32 = v /\
  unsigned_to_signed v = (if v <? 2 ^ 31 then v else v - 2 ^ 32).
Proof.
  intros Hv. unfold unsigned_to_signed.
  change 0x80000000 with (2 ^ 31). change 0x100000000 with (2 ^ 32).
  rewrite land_bit31, bit31_high by exact Hv.
  destruct (2 ^ 31 <=? v) eqn:E.
  - apply Z.leb_le in E. change (2 ^ 31 =? 0) with false. cbn [negb].
    destruct (v <? 2 ^ 31) eqn:E1; [apply Z.ltb_lt in E1; lia|].
    repeat split; try lia.
    symmetry. apply (Z.mod_unique _ _ (-1)); lia.
  - apply Z.leb_gt in E. change (0 =? 0) with true. cbn [negb].
    destruct (v <? 2 ^ 31) eqn:E1; [|apply Z.ltb_ge in E1; lia].
    repeat split; try lia. apply Z.mod_small. lia.
Qed.

Lemma unsigned_to_signed_word_witness :
  - 2 ^ 31 <= unsigned_to_signed 4294967295 < 2 ^ 31 /\
  unsigned_to_signed 4294967295 mod 2 ^ 32 = 4294967295 /\
  unsigned_to_signed 4294967295
  = (if 4294967295 <? 2 ^ 31 then 4294967295 else 4294967295 - 2 ^ 32).
Proof.
  apply (unsigned_to_signed_word 4294967295). lia.
Defined.

End Words.
